(** * TrueSight backend: the result-normalisation pipeline of [backend.js]

    A shallow embedding of the [/analyze] pipeline: provider selection,
    the strict parser, the heuristic extractor, the mock analyser and the
    catch-all fallback of [analyzeWithClaude] / [analyzeWithDeepSeek].

    Conventions of the embedding.
    - A JavaScript string is a list of code units.  The model covers the
      code units below 256 (one [ascii] each); the bullet U+2022 of the
      numbering pattern and the white space above U+00FF lie outside it.
    - A JavaScript number is the rational it denotes, or an infinity.
      [Math.round], [Math.min], [Math.max] and [Math.floor] are exact on
      doubles, so they are modelled on the exact value; the product and
      the sum of [performMockAnalysis] are rounded to the nearest double,
      as binary64 arithmetic does, and [Math.random] draws doubles.
    - Exceptions are an explicit error result; objects that are mutated
      after their construction live in an explicit store. *)

From Stdlib Require Import Ascii String List ZArith QArith Qround Qpower Bool
  Lia.
Import ListNotations.

Local Open Scope string_scope.
Local Open Scope list_scope.
Local Open Scope nat_scope.

(** ** JavaScript strings *)

Definition jstring : Type := list ascii.

Definition lit (s : string) : jstring := list_ascii_of_string s.
Coercion lit : string >-> jstring.
Arguments lit s : simpl never.

Module JSString.

Definition code (c : ascii) : nat := nat_of_ascii c.

(** White space of [String.prototype.trim] and of the pattern class
    [\s], within the modelled code units: TAB, LF, VT, FF, CR, SP, NBSP. *)
Definition isWhiteSpace (c : ascii) : bool :=
  let n := code c in
  ((9 <=? n) && (n <=? 13)) || (n =? 32) || (n =? 160).

Definition isDigit (c : ascii) : bool :=
  let n := code c in (48 <=? n) && (n <=? 57).

Definition isAsciiLetter (c : ascii) : bool :=
  let n := code c in
  ((65 <=? n) && (n <=? 90)) || ((97 <=? n) && (n <=? 122)).

(** [toLowerCase] on one code unit: A-Z, and the Latin-1 capitals
    U+00C0..U+00DE except the multiplication sign U+00D7. *)
Definition lowerChar (c : ascii) : ascii :=
  let n := code c in
  if ((65 <=? n) && (n <=? 90))
     || ((192 <=? n) && (n <=? 222) && negb (n =? 215))
  then ascii_of_nat (n + 32) else c.

Definition toLowerCase (s : jstring) : jstring := map lowerChar s.

Fixpoint trimStart (s : jstring) : jstring :=
  match s with
  | c :: s' => if isWhiteSpace c then trimStart s' else s
  | [] => []
  end.

Fixpoint trimEnd (s : jstring) : jstring :=
  match s with
  | [] => []
  | c :: s' =>
      match trimEnd s' with
      | [] => if isWhiteSpace c then [] else [c]
      | r => c :: r
      end
  end.

Definition trim (s : jstring) : jstring := trimEnd (trimStart s).

(** [p] is a prefix of [s], code unit by code unit under [eq]. *)
Fixpoint startsWithBy (eq : ascii -> ascii -> bool) (p s : jstring) : bool :=
  match p, s with
  | [], _ => true
  | _ :: _, [] => false
  | a :: p', b :: s' => eq a b && startsWithBy eq p' s'
  end.

Definition startsWith : jstring -> jstring -> bool := startsWithBy Ascii.eqb.

(** Matching under the [i] flag: both sides are canonicalised. *)
Definition eqbIgnoreCase (a b : ascii) : bool :=
  Ascii.eqb (lowerChar a) (lowerChar b).

(** [s.includes(p)] *)
Fixpoint includes (s p : jstring) : bool :=
  startsWith p s ||
  match s with
  | [] => false
  | _ :: s' => includes s' p
  end.

(** [s.split(sep)] for a one-unit separator; never the empty array. *)
Fixpoint split (sep : ascii) (s : jstring) : list jstring :=
  match s with
  | [] => [[]]
  | c :: s' =>
      if Ascii.eqb c sep then [] :: split sep s'
      else match split sep s' with
           | l :: ls => (c :: l) :: ls
           | [] => [[c]]
           end
  end.

(** [s.replace(re, '')] for a global pattern [re]: [matchAt s] is the
    length of the match of [re] anchored at the head of [s], if any.
    Matches are taken leftmost and do not overlap. *)
Fixpoint replaceFrom (matchAt : jstring -> option nat) (skip : nat)
         (s : jstring) : jstring :=
  match s with
  | [] => []
  | c :: s' =>
      match skip with
      | S k => replaceFrom matchAt k s'
      | O =>
          match matchAt s with
          | Some (S k) => replaceFrom matchAt k s'
          | _ => c :: replaceFrom matchAt 0 s'
          end
      end
  end.

Definition removeAll (matchAt : jstring -> option nat) (s : jstring) : jstring :=
  replaceFrom matchAt 0 s.

(** A literal (compared by [eq]) followed by an optional line feed. *)
Definition matchLiteralNl (eq : ascii -> ascii -> bool) (p s : jstring)
  : option nat :=
  if startsWithBy eq p s then
    match skipn (length p) s with
    | c :: _ => if Ascii.eqb c "010"%char then Some (S (length p))
                else Some (length p)
    | [] => Some (length p)
    end
  else None.

(** [/```json\n?/gi] *)
Definition reFenceJson : jstring -> option nat :=
  matchLiteralNl eqbIgnoreCase "```json".

(** [/```\n?/g] *)
Definition reFence : jstring -> option nat :=
  matchLiteralNl Ascii.eqb "```".

(** The units of [s] up to and including its last [c]. *)
Fixpoint uptoLast (c : ascii) (s : jstring) : option jstring :=
  match s with
  | [] => None
  | x :: s' =>
      match uptoLast c s' with
      | Some r => Some (x :: r)
      | None => if Ascii.eqb x c then Some [x] else None
      end
  end.

(** [s.match(/\{[\s\S]*\}/)]: the span from the first opening brace to
    the last closing brace after it. *)
Fixpoint matchBraces (s : jstring) : option jstring :=
  match s with
  | [] => None
  | x :: s' =>
      if Ascii.eqb x "{"%char then
        match uptoLast "}"%char s' with
        | Some r => Some (x :: r)
        | None => None
        end
      else matchBraces s'
  end.

Fixpoint dropWhile (f : ascii -> bool) (s : jstring) : jstring :=
  match s with
  | c :: s' => if f c then dropWhile f s' else s
  | [] => []
  end.

Fixpoint takeWhile (f : ascii -> bool) (s : jstring) : jstring :=
  match s with
  | c :: s' => if f c then c :: takeWhile f s' else []
  | [] => []
  end.

(** The class [[-*\d.)\]]] of the numbering pattern (its bullet U+2022 is
    not a modelled code unit). *)
Definition isBullet (c : ascii) : bool :=
  isDigit c ||
  existsb (Ascii.eqb c) ["-"; "*"; "."; ")"; "]"]%char.

(** [line.replace(/^[-*•\d.)\]]+\s*/, '')]: one anchored match. *)
Definition stripNumbering (line : jstring) : jstring :=
  match line with
  | c :: _ =>
      if isBullet c then dropWhile isWhiteSpace (dropWhile isBullet line)
      else line
  | [] => []
  end.

(** [header.match(/data:(image\/[a-zA-Z]+);/)]: the capture group of the
    leftmost match. *)
Definition mimeAt (s : jstring) : option jstring :=
  if startsWith "data:image/" s then
    let rest := skipn 11 s in
    let letters := takeWhile isAsciiLetter rest in
    match letters, dropWhile isAsciiLetter rest with
    | _ :: _, c :: _ =>
        if Ascii.eqb c ";"%char then Some (lit "image/" ++ letters) else None
    | _, _ => None
    end
  else None.

Fixpoint matchMime (s : jstring) : option jstring :=
  match mimeAt s with
  | Some m => Some m
  | None => match s with
            | [] => None
            | _ :: s' => matchMime s'
            end
  end.

(** Decimal digits of a natural number, as in a template literal. *)
Fixpoint digitsFuel (fuel n : nat) (acc : jstring) : jstring :=
  match fuel with
  | O => acc
  | S f =>
      let acc' := ascii_of_nat (48 + n mod 10) :: acc in
      if n / 10 =? 0 then acc' else digitsFuel f (n / 10) acc'
  end.

Definition ofNat (n : nat) : jstring := digitsFuel (S n) n [].

End JSString.

(** ** JavaScript numbers and JSON values *)

Inductive number : Type :=
| Fin (q : Q)
| PosInf
| NegInf.

Module JSMath.

Definition ofZ (z : Z) : number := Fin (inject_Z z).

Definition leb (a b : number) : bool :=
  match a, b with
  | NegInf, _ => true
  | _, PosInf => true
  | Fin x, Fin y => Qle_bool x y
  | _, _ => false
  end.

Definition max (a b : number) : number := if leb a b then b else a.
Definition min (a b : number) : number := if leb a b then a else b.

(** [Math.round]: the nearest integer, ties towards +oo. *)
Definition round (n : number) : number :=
  match n with
  | Fin q => ofZ (Qfloor (q + (1 # 2)))
  | _ => n
  end.

Definition floor (n : number) : number :=
  match n with
  | Fin q => ofZ (Qfloor q)
  | _ => n
  end.

Definition isZero (n : number) : bool :=
  match n with
  | Fin q => Qeq_bool q 0
  | _ => false
  end.

(** *** Binary64 arithmetic

    A finite number stands for the rational a double denotes.  The
    product and the sum of two doubles are the exact result rounded to
    the nearest double, ties to the even significand; a result of
    magnitude 2^1024 or more is an infinity. *)

Definition pow2 (k : Z) : Q := (2 ^ k)%Q.

(** The exponent of the leading binary digit of a positive rational. *)
Definition ilog2 (x : Q) : Z :=
  let k := (Z.log2 (Qnum x) - Z.log2 (Zpos (Qden x)))%Z in
  if Qle_bool (pow2 k) x then k else (k - 1)%Z.

(** The exponent of the last binary digit a double near [x] keeps: 53
    digits, and none below 2^-1074. *)
Definition ulpExp (x : Q) : Z := Z.max (-1074) (ilog2 x - 52).

(** The multiple of [2 ^ ulpExp x] nearest to a positive [x]. *)
Definition nearest (x : Q) : Q :=
  let q := (x / pow2 (ulpExp x))%Q in
  let f := Qfloor q in
  let n := match (q - inject_Z f ?= 1 # 2)%Q with
           | Lt => f
           | Gt => (f + 1)%Z
           | Eq => if Z.even f then f else (f + 1)%Z
           end in
  (inject_Z n * pow2 (ulpExp x))%Q.

Definition toDouble (x : Q) : number :=
  match (x ?= 0)%Q with
  | Eq => Fin 0
  | Gt => let y := nearest x in
          if Qle_bool (pow2 1024) y then PosInf else Fin (Qred y)
  | Lt => let y := nearest (- x) in
          if Qle_bool (pow2 1024) y then NegInf else Fin (Qred (- y))
  end.

(** [x * y] and [a + y] on doubles. *)
Definition times (x y : Q) : number := toDouble (x * y).

Definition plus (a : number) (y : Q) : number :=
  match a with
  | Fin x => toDouble (x + y)
  | _ => a
  end.

(** The doubles of the interval from 0 to 1, 1 excluded: the values
    [Math.random] can return. *)
Definition unitDouble (r : Q) : Prop :=
  exists m e, (0 <= m < 2 ^ 53)%Z /\ (53 <= e <= 1074)%Z
              /\ (r == inject_Z m * pow2 (- e))%Q.

End JSMath.

(** What [JSON.parse] and [response.json()] produce.  An object is its
    list of own properties; a lookup takes the first binding of a key. *)
#[local] Set Warnings "-register-all".
Inductive json : Type :=
| JNull
| JBool (b : bool)
| JNum (n : number)
| JStr (s : jstring)
| JArr (items : list json)
| JObj (fields : list (jstring * json)).
#[local] Set Warnings "+register-all".

(** A value read from a property: [None] is [undefined]. *)
Definition value : Type := option json.

Fixpoint jstring_eqb (a b : jstring) : bool :=
  match a, b with
  | [], [] => true
  | x :: a', y :: b' => Ascii.eqb x y && jstring_eqb a' b'
  | _, _ => false
  end.

Fixpoint assoc (k : jstring) (fields : list (jstring * json)) : value :=
  match fields with
  | [] => None
  | (k', v) :: rest => if jstring_eqb k k' then Some v else assoc k rest
  end.

(** ToBoolean *)
Definition truthy (v : value) : bool :=
  match v with
  | None | Some JNull | Some (JBool false) | Some (JStr []) => false
  | Some (JNum n) => negb (JSMath.isZero n)
  | Some _ => true
  end.

Definition nullish (v : value) : bool :=
  match v with
  | None | Some JNull => true
  | Some _ => false
  end.

(** ** Exceptions *)

Record JsError : Type := Error { message : jstring }.

Inductive outcome (A : Type) : Type :=
| Returns (a : A)
| Throws (e : JsError).
Arguments Returns {A} a.
Arguments Throws {A} e.

(** ** The result object and the object store *)

Record AnalysisResult : Type := mkResult {
  isOriginal : bool;
  confidence : number;
  summary : list json;
  analysisMethod : jstring;
  fallbackReason : option jstring
}.

Definition loc : Type := nat.

Inductive field : Type := FAnalysisMethod | FFallbackReason.

(** The HTTP exchange with a provider, as [node-fetch] presents it. *)
Record Request : Type := mkRequest {
  url : jstring;
  credential : option jstring;
  media_type : jstring;
  data : json
}.

Record Response : Type := mkResponse {
  status : nat;
  text : outcome jstring;       (* [await response.text()] *)
  body_json : outcome json      (* [await response.json()] *)
}.

Definition ok (r : Response) : bool :=
  (200 <=? status r) && (status r <? 300).

Inductive Event : Type :=
| EFetch (r : Request)
| ENew (l : loc)
| ESet (l : loc) (f : field).

Record World : Type := mkWorld {
  heap : list AnalysisResult;
  drawn : nat;                  (* calls of [Math.random] so far *)
  log : list Event              (* oldest first *)
}.

Definition world0 : World := mkWorld [] 0 [].

(** Computations: a state transformer that returns or throws. *)
Definition Comp (A : Type) : Type := World -> outcome A * World.

Definition ret {A} (a : A) : Comp A := fun w => (Returns a, w).
Definition throw {A} (e : JsError) : Comp A := fun w => (Throws e, w).
Definition lift {A} (o : outcome A) : Comp A := fun w => (o, w).

Definition bind {A B} (c : Comp A) (k : A -> Comp B) : Comp B :=
  fun w =>
    match c w with
    | (Returns a, w') => k a w'
    | (Throws e, w') => (Throws e, w')
    end.

Definition tryCatch {A} (c : Comp A) (handler : JsError -> Comp A) : Comp A :=
  fun w =>
    match c w with
    | (Returns a, w') => (Returns a, w')
    | (Throws e, w') => handler e w'
    end.

Notation "x <- c ;; k" := (bind c (fun x => k))
  (at level 61, c at next level, right associativity).
Notation "c ;;; k" := (bind c (fun _ => k))
  (at level 61, right associativity).

Definition emit (e : Event) : Comp unit :=
  fun w => (Returns tt, mkWorld (heap w) (drawn w) (log w ++ [e])).

(** An object literal: a fresh object in the store. *)
Definition new (o : AnalysisResult) : Comp loc :=
  fun w =>
    let l := length (heap w) in
    (Returns l, mkWorld (heap w ++ [o]) (drawn w) (log w ++ [ENew l])).

Fixpoint update {A} (l : nat) (f : A -> A) (xs : list A) : list A :=
  match xs, l with
  | [], _ => []
  | x :: xs', O => f x :: xs'
  | x :: xs', S l' => x :: update l' f xs'
  end.

Definition assign (l : loc) (fld : field) (f : AnalysisResult -> AnalysisResult)
  : Comp unit :=
  fun w => (Returns tt,
            mkWorld (update l f (heap w)) (drawn w) (log w ++ [ESet l fld])).

Definition setAnalysisMethod (l : loc) (v : jstring) : Comp unit :=
  assign l FAnalysisMethod
    (fun o => mkResult (isOriginal o) (confidence o) (summary o) v
                       (fallbackReason o)).

Definition setFallbackReason (l : loc) (v : jstring) : Comp unit :=
  assign l FFallbackReason
    (fun o => mkResult (isOriginal o) (confidence o) (summary o)
                       (analysisMethod o) (Some v)).

Definition deref (l : loc) (w : World) : option AnalysisResult :=
  nth_error (heap w) l.

(** ** The backend *)

Section Backend.

Import JSString.

(** [process.env.CLAUDE_API_KEY] and [process.env.DEEPSEEK_API_KEY]:
    unset, or a string. *)
Variable CLAUDE_KEY DEEPSEEK_KEY : option jstring.

(** The network: what [await fetch(...)] gives for a request. *)
Variable fetch : Request -> outcome Response.

(** The [n]-th result of [Math.random()]. *)
Variable Math_random : nat -> Q.

(** [JSON.parse], and the [TypeError] the engine raises when property
    [p] of receiver [v] cannot be read or called. *)
Variable JSON_parse : jstring -> outcome json.
Variable TypeError : value -> jstring -> JsError.

Definition configured (key : option jstring) : bool :=
  match key with
  | Some (_ :: _) => true
  | _ => false
  end.

(** [v.p] for the property names this program reads; none of them is
    defined on a prototype, so only an object can have one. *)
Definition getProp (v : value) (p : jstring) : Comp value :=
  match v with
  | None | Some JNull => throw (TypeError v p)
  | Some (JObj fields) => ret (assoc p fields)
  | Some _ => ret None
  end.

(** [v?.p] *)
Definition getPropOpt (v : value) (p : jstring) : Comp value :=
  if nullish v then ret None else getProp v p.

(** [v?.[0]] *)
Definition getFirstOpt (v : value) : Comp value :=
  match v with
  | None | Some JNull => ret None
  | Some (JArr items) => ret (nth_error items 0)
  | Some (JStr (c :: _)) => ret (Some (JStr [c]))
  | Some (JObj fields) => ret (assoc "0" fields)
  | Some _ => ret None
  end.

(** [v || ''] followed by [.substring(0, 150)], which only a string has. *)
Definition orEmptyString (v : value) : Comp jstring :=
  if truthy v then
    match v with
    | Some (JStr s) => ret s
    | _ => throw (TypeError v "substring")
    end
  else ret [].

Definition random : Comp Q :=
  fun w => (Returns (Math_random (drawn w)),
            mkWorld (heap w) (S (drawn w)) (log w)).

Definition doFetch (r : Request) : Comp Response :=
  emit (EFetch r) ;;; lift (fetch r).

(** *** Mock analysis *)

Definition authenticObservations : list json :=
  [ JStr "Natural texture patterns detected throughout the image";
    JStr "Lighting and shadow consistency appears authentic";
    JStr "No obvious AI generation artifacts found";
    JStr "Image metadata suggests original capture" ].

Definition generatedObservations : list json :=
  [ JStr "Unusual smoothness patterns detected in specific regions";
    JStr "Inconsistent noise distribution across the image";
    JStr "Texture repetition patterns typical of AI generation";
    JStr "Subtle artifacts found in fine details" ].

Definition performMockAnalysis : Comp loc :=
  r1 <- random ;;
  r2 <- random ;;
  let isOriginal := negb (Qle_bool r1 (1 # 2)) in
  let confidence := JSMath.plus (JSMath.floor (JSMath.times r2 21)) 75 in
  let summary :=
    if isOriginal then authenticObservations else generatedObservations in
  new (mkResult isOriginal confidence summary "mock" None).

(** *** Strict parsing *)

Definition extractJsonText (textContent : jstring) : jstring :=
  let jsonText := trim textContent in
  let jsonText :=
    if includes jsonText "```"
    then trim (removeAll reFence (removeAll reFenceJson jsonText))
    else jsonText in
  match matchBraces jsonText with
  | Some m => m
  | None => jsonText
  end.

Definition parseStrict (method : jstring) (textContent : jstring) : Comp loc :=
  parsed <- lift (JSON_parse (extractJsonText textContent)) ;;
  vOriginal <- getProp (Some parsed) "isOriginal" ;;
  match vOriginal with
  | Some (JBool b) =>
      vConfidence <- getProp (Some parsed) "confidence" ;;
      match vConfidence with
      | Some (JNum n) =>
          vObservations <- getProp (Some parsed) "observations" ;;
          match vObservations with
          | Some (JArr observations) =>
              new (mkResult b
                     (JSMath.min (JSMath.ofZ 100)
                        (JSMath.max (JSMath.ofZ 0) (JSMath.round n)))
                     observations method None)
          | _ => throw (Error "observations must be array")
          end
      | _ => throw (Error "confidence must be number")
      end
  | _ => throw (Error "isOriginal must be boolean")
  end.

(** *** Heuristic extraction *)

Definition extractObservations (textContent : jstring) : list jstring :=
  let lines :=
    filter (fun line => 10 <? length (trim line))
           (split "010"%char textContent) in
  map (fun line => trim (stripNumbering line)) (firstn 4 lines).

Definition claudeDefaults : list json :=
  [ JStr "Analysis completed but response format was unexpected";
    JStr "Technical analysis performed on image structure";
    JStr "Review recommended for accuracy verification";
    JStr "Consider manual inspection for confirmation" ].

Definition deepSeekDefaults : list json :=
  [ JStr "Analysis completed with limited data";
    JStr "Technical pattern analysis performed";
    JStr "Manual review recommended for accuracy";
    JStr "Consider additional verification methods" ].

Definition claudeFallback (textContent : jstring) : Comp loc :=
  let textLower := toLowerCase textContent in
  let isOriginal :=
    negb (includes textLower "ai-generated") &&
    negb (includes textLower "artificial") &&
    negb (includes textLower "generated") &&
    negb (includes textLower "fake") in
  let observations := extractObservations textContent in
  new (mkResult isOriginal (JSMath.ofZ 70)
         (if 0 <? length observations then map JStr observations
          else claudeDefaults)
         "claude-api-fallback" None).

Definition deepSeekFallback (textContent : jstring) : Comp loc :=
  let textLower := toLowerCase textContent in
  let isOriginal :=
    negb (includes textLower "ai-generated") &&
    negb (includes textLower "artificial") &&
    negb (includes textLower "generated") in
  let observations := extractObservations textContent in
  new (mkResult isOriginal (JSMath.ofZ 70)
         (if 0 <? length observations then map JStr observations
          else deepSeekDefaults)
         "deepseek-api-fallback" None).

(** *** The catch-all of both analysers *)

Definition mockFallback (apiError : JsError) : Comp loc :=
  mockResult <- performMockAnalysis ;;
  setAnalysisMethod mockResult "mock-fallback" ;;;
  setFallbackReason mockResult (message apiError) ;;;
  ret mockResult.

(** *** Claude *)

Definition claudeRequest (base64Data : json) (mediaType : jstring) : Request :=
  mkRequest "https://api.anthropic.com/v1/messages" CLAUDE_KEY
            mediaType base64Data.

(** [data.content.find(c => c.type === 'text')] *)
Fixpoint findText (items : list json) : Comp value :=
  match items with
  | [] => ret None
  | c :: rest =>
      t <- getProp (Some c) "type" ;;
      match t with
      | Some (JStr s) =>
          if jstring_eqb s "text" then ret (Some c) else findText rest
      | _ => findText rest
      end
  end.

Definition claudeText (data : json) : Comp jstring :=
  content <- getProp (Some data) "content" ;;
  found <- match content with
           | Some (JArr items) => findText items
           | _ => throw (TypeError content "find")
           end ;;
  t <- getPropOpt found "text" ;;
  orEmptyString t.

Definition analyzeWithClaude (base64Data : json) (mediaType : jstring)
  : Comp loc :=
  tryCatch
    (response <- doFetch (claudeRequest base64Data mediaType) ;;
     (if negb (ok response) then
        errorText <- lift (text response) ;;
        throw (Error (lit "Claude API error: " ++ ofNat (status response)
                      ++ lit " - " ++ errorText))
      else ret tt) ;;;
     data <- lift (body_json response) ;;
     textContent <- claudeText data ;;
     tryCatch (parseStrict "claude-api" textContent)
              (fun parseErr => claudeFallback textContent))
    mockFallback.

(** *** DeepSeek *)

Definition deepSeekRequest (base64Data : json) (mediaType : jstring)
  : Request :=
  mkRequest "https://api.deepseek.com/v1/chat/completions" DEEPSEEK_KEY
            mediaType base64Data.

(** [data.choices?.[0]?.message?.content || ''] *)
Definition deepSeekText (data : json) : Comp jstring :=
  choices <- getProp (Some data) "choices" ;;
  first <- getFirstOpt choices ;;
  msg <- getPropOpt first "message" ;;
  content <- getPropOpt msg "content" ;;
  orEmptyString content.

Definition analyzeWithDeepSeek (base64Data : json) (mediaType : jstring)
  : Comp loc :=
  tryCatch
    (response <- doFetch (deepSeekRequest base64Data mediaType) ;;
     (if negb (ok response) then
        errorText <- lift (text response) ;;
        throw (Error (lit "DeepSeek API error: " ++ ofNat (status response)
                      ++ lit " - " ++ errorText))
      else ret tt) ;;;
     data <- lift (body_json response) ;;
     textContent <- deepSeekText data ;;
     tryCatch (parseStrict "deepseek-api" textContent)
              (fun parseErr => deepSeekFallback textContent))
    mockFallback.

(** *** The [/analyze] handler *)

(** [',' === v], the test of [Array.prototype.includes]. *)
Definition isComma (v : json) : bool :=
  match v with
  | JStr s => jstring_eqb s ","
  | _ => false
  end.

(** Lines 51 to 63: [image.includes(',')], then [parts[0]] and [parts[1]]
    of [image.split(',')] with the media type read from the header.  A
    string and an array have [includes]; only a string has [split]. *)
Definition splitDataUrl (image : json) : Comp (json * jstring) :=
  match image with
  | JStr s =>
      if includes s "," then
        let parts := split ","%char s in
        let header := hd [] parts in
        let mediaType :=
          match matchMime header with
          | Some m => m
          | None => lit "image/jpeg"
          end in
        match nth_error parts 1 with
        | Some base64Data => ret (JStr base64Data, mediaType)
        | None => throw (TypeError None "length")
        end
      else ret (image, lit "image/jpeg")
  | JArr items =>
      if existsb isComma items then throw (TypeError (Some image) "split")
      else ret (image, lit "image/jpeg")
  | _ => throw (TypeError (Some image) "includes")
  end.

Definition readResult (l : loc) : Comp AnalysisResult :=
  fun w =>
    match deref l w with
    | Some o => (Returns o, w)
    | None => (Throws (TypeError None "isOriginal"), w)
    end.

Inductive Reply : Type :=
| Json (statusCode : nat) (result : AnalysisResult)
| Failure (statusCode : nat) (error : jstring) (msg : jstring).

(** [image] is [req.body.image], whatever the body parser put there:
    absent, or any JSON value. *)
Definition analyze (image : value) (w : World) : Reply * World :=
  match image with
  | Some image' =>
      if truthy image then
        let run :=
          p <- splitDataUrl image' ;;
          let '(base64Data, mediaType) := p in
          result <-
            (if configured CLAUDE_KEY
             then analyzeWithClaude base64Data mediaType
             else if configured DEEPSEEK_KEY
                  then analyzeWithDeepSeek base64Data mediaType
                  else performMockAnalysis) ;;
          readResult result in
        match run w with
        | (Returns o, w') => (Json 200 o, w')
        | (Throws err, w') =>
            (Failure 500 "Failed to analyze image" (message err), w')
        end
      else
        (Failure 400 "No image provided" "Please upload an image to analyze",
         w)
  | None =>
      (Failure 400 "No image provided" "Please upload an image to analyze", w)
  end.

End Backend.

(** ** A reference [JSON.parse]

    The theorems below hold for any [JSON.parse]; to run the pipeline on a
    concrete reply the ECMA-404 grammar is read here over the modelled code
    units.  A number literal denotes the double nearest to its decimal
    value.  A [\u] escape above 00FF names a code unit outside the modelled
    alphabet: a text with one is outside the domain of this parser, which
    answers it with a syntax error. *)

Module JSONText.

Import JSString.

Definition isJsonSpace (c : ascii) : bool :=
  existsb (Ascii.eqb c) [" "; "009"; "010"; "013"]%char.

Definition skipWs (s : jstring) : jstring := dropWhile isJsonSpace s.

Definition digitVal (c : ascii) : Z := Z.of_nat (code c - 48).

Definition digitsVal (ds : jstring) : Z :=
  fold_left (fun acc c => (10 * acc + digitVal c)%Z) ds 0%Z.

Definition hexVal (c : ascii) : option nat :=
  let n := code c in
  if isDigit c then Some (n - 48)
  else if (97 <=? n) && (n <=? 102) then Some (n - 87)
  else if (65 <=? n) && (n <=? 70) then Some (n - 55)
  else None.

(** The body of a string literal, after its opening quote. *)
Fixpoint parseChars (s : jstring) : option (jstring * jstring) :=
  let cons c r := option_map (fun p => (c :: fst p, snd p)) r in
  match s with
  | [] => None
  | "034"%char :: r => Some ([], r)
  | "\"%char :: e :: r =>
      match e with
      | "034"%char | "\"%char | "/"%char => cons e (parseChars r)
      | "b"%char => cons "008"%char (parseChars r)
      | "f"%char => cons "012"%char (parseChars r)
      | "n"%char => cons "010"%char (parseChars r)
      | "r"%char => cons "013"%char (parseChars r)
      | "t"%char => cons "009"%char (parseChars r)
      | "u"%char =>
          match r with
          | a :: b :: c :: d :: r' =>
              match hexVal a, hexVal b, hexVal c, hexVal d with
              | Some 0, Some 0, Some h, Some l =>
                  cons (ascii_of_nat (16 * h + l)) (parseChars r')
              | _, _, _, _ => None
              end
          | _ => None
          end
      | _ => None
      end
  | c :: r => if code c <? 32 then None else cons c (parseChars r)
  end.

(** [-? int frac? exp?]: the double nearest to the decimal written. *)
Definition parseNumber (s : jstring) : option (number * jstring) :=
  let '(neg, s1) :=
    match s with
    | "-"%char :: r => (true, r)
    | _ => (false, s)
    end in
  let int := takeWhile isDigit s1 in
  let s2 := dropWhile isDigit s1 in
  let wellFormedInt :=
    match int with
    | [] => false
    | "0"%char :: _ :: _ => false
    | _ => true
    end in
  let '(frac, s3, fracOk) :=
    match s2 with
    | "."%char :: r =>
        (takeWhile isDigit r, dropWhile isDigit r,
         0 <? length (takeWhile isDigit r))
    | _ => ([], s2, true)
    end in
  let '(expo, s4, expOk) :=
    match s3 with
    | c :: r =>
        if Ascii.eqb c "e"%char || Ascii.eqb c "E"%char then
          let '(eneg, r1) :=
            match r with
            | "-"%char :: r' => (true, r')
            | "+"%char :: r' => (false, r')
            | _ => (false, r)
            end in
          let ds := takeWhile isDigit r1 in
          ((if eneg then - digitsVal ds else digitsVal ds)%Z,
           dropWhile isDigit r1, 0 <? length ds)
        else (0%Z, s3, true)
    | [] => (0%Z, s3, true)
    end in
  if wellFormedInt && fracOk && expOk then
    let mant := digitsVal (int ++ frac) in
    let mant := if neg then (- mant)%Z else mant in
    let e := (expo - Z.of_nat (length frac))%Z in
    let q := if (0 <=? e)%Z
             then inject_Z (mant * 10 ^ e)
             else Qmake mant (Z.to_pos (10 ^ (- e))) in
    Some (JSMath.toDouble q, s4)
  else None.

(** Defining a property: a later duplicate replaces the earlier value. *)
Fixpoint define (k : jstring) (v : json) (fields : list (jstring * json))
  : list (jstring * json) :=
  match fields with
  | [] => [(k, v)]
  | (k', v') :: rest =>
      if jstring_eqb k k' then (k', v) :: rest
      else (k', v') :: define k v rest
  end.

Fixpoint parseValue (fuel : nat) (s : jstring) : option (json * jstring) :=
  match fuel with
  | O => None
  | S f =>
      match skipWs s with
      | "{"%char :: r =>
          match skipWs r with
          | "}"%char :: r' => Some (JObj [], r')
          | r1 => parseMembers f r1 []
          end
      | "["%char :: r =>
          match skipWs r with
          | "]"%char :: r' => Some (JArr [], r')
          | r1 => parseElements f r1 []
          end
      | "034"%char :: r =>
          option_map (fun p => (JStr (fst p), snd p)) (parseChars r)
      | c :: r =>
          let s' := c :: r in
          if startsWith "true" s' then Some (JBool true, skipn 4 s')
          else if startsWith "false" s' then Some (JBool false, skipn 5 s')
          else if startsWith "null" s' then Some (JNull, skipn 4 s')
          else option_map (fun p => (JNum (fst p), snd p)) (parseNumber s')
      | [] => None
      end
  end

with parseElements (fuel : nat) (s : jstring) (acc : list json)
  : option (json * jstring) :=
  match fuel with
  | O => None
  | S f =>
      match parseValue f s with
      | Some (v, r) =>
          match skipWs r with
          | ","%char :: r' => parseElements f r' (v :: acc)
          | "]"%char :: r' => Some (JArr (rev (v :: acc)), r')
          | _ => None
          end
      | None => None
      end
  end

with parseMembers (fuel : nat) (s : jstring) (acc : list (jstring * json))
  : option (json * jstring) :=
  match fuel with
  | O => None
  | S f =>
      match skipWs s with
      | "034"%char :: r =>
          match parseChars r with
          | Some (k, r1) =>
              match skipWs r1 with
              | ":"%char :: r2 =>
                  match parseValue f r2 with
                  | Some (v, r3) =>
                      match skipWs r3 with
                      | ","%char :: r4 => parseMembers f r4 (define k v acc)
                      | "}"%char :: r4 => Some (JObj (define k v acc), r4)
                      | _ => None
                      end
                  | None => None
                  end
              | _ => None
              end
          | None => None
          end
      | _ => None
      end
  end.

Definition syntaxError : JsError := Error "Unexpected token in JSON".

Definition parse (s : jstring) : outcome json :=
  match parseValue (2 * length s + 2) s with
  | Some (v, r) =>
      match skipWs r with
      | [] => Returns v
      | _ => Throws syntaxError
      end
  | None => Throws syntaxError
  end.

End JSONText.

(** * Properties *)

(** ** The store *)

(** The world after one object literal. *)
Definition allocated (w : World) (o : AnalysisResult) : outcome loc * World :=
  (Returns (length (heap w)),
   mkWorld (heap w ++ [o]) (drawn w) (log w ++ [ENew (length (heap w))])).

(** The object a computation returned, read from the store it left. *)
Definition resultOf (r : outcome loc * World) : option AnalysisResult :=
  match r with
  | (Returns l, w) => deref l w
  | (Throws _, _) => None
  end.

Lemma nth_error_snoc {A} (xs : list A) (x : A) :
  nth_error (xs ++ [x]) (length xs) = Some x.
Proof.
  induction xs as [|y xs IH]; simpl; [reflexivity | exact IH].
Qed.

Lemma update_snoc {A} (f : A -> A) (xs : list A) (x : A) :
  update (length xs) f (xs ++ [x]) = xs ++ [f x].
Proof.
  induction xs as [|y xs IH]; simpl; [reflexivity | now rewrite IH].
Qed.

Lemma resultOf_allocated w o : resultOf (allocated w o) = Some o.
Proof. unfold resultOf, allocated, deref; simpl. apply nth_error_snoc. Qed.

(** ** The heuristic extractor *)

Section Heuristic.

Import JSString.

Lemma extractObservations_length t : length (extractObservations t) <= 4.
Proof.
  unfold extractObservations. rewrite length_map, length_firstn. lia.
Qed.

(** The summary of the heuristic tier: the extracted lines if there is
    one, the provider's default set otherwise. *)
Definition heuristicSummary (defaults : list json) (t : jstring) : list json :=
  if 0 <? length (extractObservations t)
  then map JStr (extractObservations t) else defaults.

Lemma heuristicSummary_length defaults t :
  length defaults = 4 ->
  1 <= length (heuristicSummary defaults t) <= 4.
Proof.
  intro Hd. unfold heuristicSummary.
  pose proof (extractObservations_length t) as Hle.
  destruct (0 <? length (extractObservations t)) eqn:E.
  - apply Nat.ltb_lt in E. rewrite length_map. lia.
  - lia.
Qed.

(** The object of each provider's heuristic tier. *)
Definition claudeHeuristic (t : jstring) : AnalysisResult :=
  mkResult
    (negb (includes (toLowerCase t) "ai-generated")
     && negb (includes (toLowerCase t) "artificial")
     && negb (includes (toLowerCase t) "generated")
     && negb (includes (toLowerCase t) "fake"))
    (JSMath.ofZ 70) (heuristicSummary claudeDefaults t)
    "claude-api-fallback" None.

Definition deepSeekHeuristic (t : jstring) : AnalysisResult :=
  mkResult
    (negb (includes (toLowerCase t) "ai-generated")
     && negb (includes (toLowerCase t) "artificial")
     && negb (includes (toLowerCase t) "generated"))
    (JSMath.ofZ 70) (heuristicSummary deepSeekDefaults t)
    "deepseek-api-fallback" None.

Lemma claudeFallback_run t w :
  claudeFallback t w = allocated w (claudeHeuristic t).
Proof. reflexivity. Qed.

Lemma deepSeekFallback_run t w :
  deepSeekFallback t w = allocated w (deepSeekHeuristic t).
Proof. reflexivity. Qed.

End Heuristic.

(** ** Strict parsing *)

Section Strict.

Variable JSON_parse : jstring -> outcome json.
Variable TypeError : value -> jstring -> JsError.

Definition clamp (n : number) : number :=
  JSMath.min (JSMath.ofZ 100) (JSMath.max (JSMath.ofZ 0) (JSMath.round n)).

(** What the strict parser accepts: a parsed object with a boolean, a
    number and an array under the three keys. *)
Definition accepted (method : jstring) (parsed : json) : option AnalysisResult :=
  match parsed with
  | JObj fields =>
      match assoc "isOriginal" fields, assoc "confidence" fields,
            assoc "observations" fields with
      | Some (JBool b), Some (JNum n), Some (JArr obs) =>
          Some (mkResult b (clamp n) obs method None)
      | _, _, _ => None
      end
  | _ => None
  end.

Lemma parseStrict_run method t w :
  match JSON_parse (extractJsonText t) with
  | Returns parsed =>
      match accepted method parsed with
      | Some o => parseStrict JSON_parse TypeError method t w = allocated w o
      | None => exists e, parseStrict JSON_parse TypeError method t w = (Throws e, w)
      end
  | Throws e => parseStrict JSON_parse TypeError method t w = (Throws e, w)
  end.
Proof.
  unfold parseStrict, bind, lift.
  destruct (JSON_parse (extractJsonText t)) as [parsed|e]; [|reflexivity].
  destruct parsed as [ |b|n|s|items|fields]; simpl;
    try (eexists; reflexivity).
  unfold ret, bind.
  destruct (assoc "isOriginal" fields) as [[ |b|n|s|items|fs]|];
    simpl; try (eexists; reflexivity).
  destruct (assoc "confidence" fields) as [[ |b'|n|s|items|fs]|];
    simpl; try (eexists; reflexivity).
  destruct (assoc "observations" fields) as [[ |b'|n'|s|items|fs]|];
    simpl; solve [reflexivity | eexists; reflexivity].
Qed.

End Strict.

(** ** Computations that leave the world alone *)

Definition evalIn {A} (c : Comp A) : outcome A := fst (c world0).

Definition pureComp {A} (c : Comp A) : Prop :=
  forall w, c w = (evalIn c, w).

Lemma pure_ret {A} (a : A) : pureComp (ret a).
Proof. intro w. reflexivity. Qed.

Lemma pure_throw {A} (e : JsError) : pureComp (@throw A e).
Proof. intro w. reflexivity. Qed.

Lemma pure_bind {A B} (c : Comp A) (k : A -> Comp B) :
  pureComp c -> (forall a, pureComp (k a)) -> pureComp (bind c k).
Proof.
  intros Hc Hk w. unfold evalIn, bind.
  rewrite (Hc w), (Hc world0). simpl.
  destruct (evalIn c) as [a|e]; [|reflexivity].
  rewrite (Hk a w), (Hk a world0). reflexivity.
Qed.

Create HintDb purity.
#[local] Hint Resolve pure_ret pure_throw pure_bind : purity.

Lemma bind_run {A B} (c : Comp A) (k : A -> Comp B) w :
  bind c k w =
  match c w with
  | (Returns a, w') => k a w'
  | (Throws e, w') => (Throws e, w')
  end.
Proof. reflexivity. Qed.

Lemma tryCatch_run {A} (c : Comp A) (h : JsError -> Comp A) w :
  tryCatch c h w =
  match c w with
  | (Returns a, w') => (Returns a, w')
  | (Throws e, w') => h e w'
  end.
Proof. reflexivity. Qed.

Section Replies.

Variable TypeError : value -> jstring -> JsError.

Lemma pure_getProp v p : pureComp (getProp TypeError v p).
Proof. destruct v as [[ | | | | | ]|]; simpl; auto with purity. Qed.

Lemma pure_getPropOpt v p : pureComp (getPropOpt TypeError v p).
Proof.
  unfold getPropOpt. destruct (nullish v);
    auto using pure_getProp with purity.
Qed.

Lemma pure_getFirstOpt v : pureComp (getFirstOpt v).
Proof.
  destruct v as [[ | | |[|c s]| | ]|]; simpl; auto with purity.
Qed.

Lemma pure_orEmptyString v : pureComp (orEmptyString TypeError v).
Proof.
  unfold orEmptyString. destruct (truthy v); [|auto with purity].
  destruct v as [[ | | | | | ]|]; auto with purity.
Qed.

Lemma pure_findText items : pureComp (findText TypeError items).
Proof.
  induction items as [|c rest IH]; cbn [findText]; [auto with purity|].
  apply pure_bind; [apply pure_getProp|].
  intros [[ | | |s| | ]|]; auto.
  destruct (jstring_eqb s "text"); auto with purity.
Qed.

Lemma pure_claudeText data : pureComp (claudeText TypeError data).
Proof.
  unfold claudeText.
  apply pure_bind; [apply pure_getProp|]. intro content.
  apply pure_bind.
  - destruct content as [[ | | | |items| ]|];
      auto using pure_findText with purity.
  - intro found. apply pure_bind; [apply pure_getPropOpt|].
    intro t. apply pure_orEmptyString.
Qed.

Lemma pure_deepSeekText data : pureComp (deepSeekText TypeError data).
Proof.
  unfold deepSeekText.
  apply pure_bind; [apply pure_getProp|]. intro choices.
  apply pure_bind; [apply pure_getFirstOpt|]. intro first.
  apply pure_bind; [apply pure_getPropOpt|]. intro msg.
  apply pure_bind; [apply pure_getPropOpt|]. intro content.
  apply pure_orEmptyString.
Qed.

End Replies.

(** ** The mock analyser *)

(** ** Rounding to doubles *)

Module DoubleFacts.

Import JSMath.

Lemma pow2_pos k : (0 < pow2 k)%Q.
Proof. apply Qpower_0_lt. reflexivity. Qed.

Lemma pow2_add a b : (pow2 (a + b) == pow2 a * pow2 b)%Q.
Proof. apply Qpower_plus. discriminate. Qed.

Lemma pow2_Z k : (0 <= k)%Z -> (pow2 k == inject_Z (2 ^ k))%Q.
Proof. intro H. unfold pow2. now rewrite Zpower_Qpower. Qed.

Lemma pow2_le a b : (a <= b)%Z -> (pow2 a <= pow2 b)%Q.
Proof. intro H. apply Qpower_le_compat_l; [exact H | discriminate]. Qed.

Lemma pow2_lt_inv a b : (pow2 a < pow2 b)%Q -> (a < b)%Z.
Proof. intro H. apply (Qpower_lt_compat_l_inv 2); [exact H | reflexivity]. Qed.

Lemma ilog2_spec x :
  (0 < x)%Q -> (pow2 (ilog2 x) <= x)%Q /\ (x < pow2 (ilog2 x + 1))%Q.
Proof.
  intro Hx. destruct x as [n d]. unfold ilog2. cbn [Qnum Qden].
  assert (Hn : (0 < n)%Z) by (unfold Qlt in Hx; simpl in Hx; lia).
  set (a := Z.log2 n). set (b := Z.log2 (Zpos d)).
  destruct (Z.log2_spec n Hn) as [Ha1 Ha2]. fold a in Ha1, Ha2.
  destruct (Z.log2_spec (Zpos d) eq_refl) as [Hb1 Hb2]. fold b in Hb1, Hb2.
  assert (Ha0 : (0 <= a)%Z) by apply Z.log2_nonneg.
  assert (Hb0 : (0 <= b)%Z) by apply Z.log2_nonneg.
  assert (Hd : (0 < inject_Z (Zpos d))%Q) by reflexivity.
  assert (Hq : (n # d == inject_Z n / inject_Z (Zpos d))%Q)
    by apply Qmake_Qdiv.
  assert (Hlow : (pow2 (a - b - 1) < n # d)%Q).
  { rewrite Hq. apply Qlt_shift_div_l; [exact Hd|].
    apply Qlt_le_trans with (pow2 (a - b - 1) * pow2 (b + 1))%Q.
    - apply Qmult_lt_l; [apply pow2_pos|].
      rewrite pow2_Z by lia. rewrite <- Zlt_Qlt.
      now replace (b + 1)%Z with (Z.succ b) by lia.
    - rewrite <- pow2_add. replace (a - b - 1 + (b + 1))%Z with a by lia.
      rewrite pow2_Z by lia. now rewrite <- Zle_Qle. }
  assert (Hhigh : (n # d < pow2 (a - b + 1))%Q).
  { rewrite Hq. apply Qlt_shift_div_r; [exact Hd|].
    apply Qlt_le_trans with (pow2 (a - b + 1) * pow2 b)%Q.
    - rewrite <- pow2_add. replace (a - b + 1 + b)%Z with (Z.succ a) by lia.
      rewrite pow2_Z by lia. now rewrite <- Zlt_Qlt.
    - apply Qmult_le_l; [apply pow2_pos|].
      rewrite pow2_Z by lia. now rewrite <- Zle_Qle. }
  destruct (Qle_bool (pow2 (a - b)) (n # d)) eqn:E.
  - apply Qle_bool_iff in E. split; [exact E | exact Hhigh].
  - split; [apply Qlt_le_weak; exact Hlow|].
    replace (a - b - 1 + 1)%Z with (a - b)%Z by lia.
    apply Qnot_le_lt. intro H. apply Qle_bool_iff in H. congruence.
Qed.

Lemma nearest_le x N c :
  (0 <= c)%Q -> (c < 1 # 2)%Q ->
  (x <= (inject_Z N + c) * pow2 (ulpExp x))%Q ->
  (nearest x <= inject_Z N * pow2 (ulpExp x))%Q.
Proof.
  intros Hc0 Hc Hx. unfold nearest. cbv zeta.
  set (u := pow2 (ulpExp x)) in *.
  assert (Hu : (0 < u)%Q) by apply pow2_pos.
  set (q := (x / u)%Q). set (f := Qfloor q).
  assert (Hq : (q <= inject_Z N + c)%Q)
    by (apply Qle_shift_div_r; assumption).
  assert (Hf : (f <= N)%Z).
  { apply Z.lt_succ_r. rewrite Zlt_Qlt.
    apply Qle_lt_trans with q; [apply Qfloor_le|].
    eapply Qle_lt_trans; [exact Hq|].
    unfold Z.succ. rewrite inject_Z_plus. apply Qplus_lt_r.
    eapply Qlt_trans; [exact Hc | reflexivity]. }
  assert (Hrem : f = N -> (q - inject_Z f < 1 # 2)%Q).
  { intros ->. apply Qle_lt_trans with c; [|exact Hc].
    apply (Qplus_le_l _ _ (inject_Z N)).
    setoid_replace (q - inject_Z N + inject_Z N)%Q with q by ring.
    rewrite (Qplus_comm c). exact Hq. }
  apply Qmult_le_compat_r; [|now apply Qlt_le_weak].
  rewrite <- Zle_Qle.
  destruct (q - inject_Z f ?= 1 # 2)%Q eqn:E.
  - apply Qeq_alt in E.
    assert (f <> N) by (intro H; apply Hrem in H; rewrite E in H;
                        now apply Qlt_irrefl in H).
    destruct (Z.even f); lia.
  - exact Hf.
  - apply Qgt_alt in E.
    assert (f <> N) by (intro H; apply Hrem in H;
                        apply (Qlt_irrefl (1 # 2));
                        now apply Qlt_trans with (q - inject_Z f)%Q).
    lia.
Qed.

Lemma nearest_nonneg x : (0 < x)%Q -> (0 <= nearest x)%Q.
Proof.
  intro Hx. unfold nearest. cbv zeta.
  set (u := pow2 (ulpExp x)).
  assert (Hu : (0 < u)%Q) by apply pow2_pos.
  set (q := (x / u)%Q). set (f := Qfloor q).
  assert (Hq : (0 <= q)%Q).
  { apply Qle_shift_div_l; [exact Hu|]. rewrite Qmult_0_l.
    now apply Qlt_le_weak. }
  assert (Hf : (0 <= f)%Z).
  { change 0%Z with (Qfloor 0). now apply Qfloor_resp_le. }
  apply Qmult_le_0_compat; [|now apply Qlt_le_weak].
  change 0%Q with (inject_Z 0). rewrite <- Zle_Qle.
  destruct (q - inject_Z f ?= 1 # 2)%Q; [destruct (Z.even f)| |]; lia.
Qed.

Lemma unitDouble_bounds r :
  unitDouble r ->
  (0 <= r)%Q /\ (r <= inject_Z (2 ^ 53 - 1) * pow2 (-53))%Q.
Proof.
  intros (m & e & Hm & He & ->). split.
  - apply Qmult_le_0_compat; [|apply Qlt_le_weak, pow2_pos].
    change 0%Q with (inject_Z 0). rewrite <- Zle_Qle. lia.
  - apply Qle_trans with (inject_Z (2 ^ 53 - 1) * pow2 (- e))%Q.
    + apply Qmult_le_compat_r; [|apply Qlt_le_weak, pow2_pos].
      rewrite <- Zle_Qle. lia.
    + apply Qmult_le_l; [reflexivity|]. apply pow2_le. lia.
Qed.

Lemma nearest_below_21 x :
  (0 < x)%Q ->
  (x <= inject_Z (2 ^ 53 - 1) * pow2 (-53) * 21)%Q ->
  (nearest x < 21)%Q.
Proof.
  intros Hx Hb.
  destruct (ilog2_spec x Hx) as [Hlo Hhi].
  assert (He : (ilog2 x < 5)%Z).
  { apply pow2_lt_inv. eapply Qle_lt_trans; [exact Hlo|].
    eapply Qle_lt_trans; [exact Hb|]. reflexivity. }
  destruct (Z.eq_dec (ilog2 x) 4) as [E4|E4].
  - assert (Hu : ulpExp x = (-48)%Z) by (unfold ulpExp; rewrite E4; reflexivity).
    apply Qle_lt_trans
      with (inject_Z (21 * 2 ^ 48 - 1) * pow2 (ulpExp x))%Q.
    + apply (nearest_le x _ (11 # 32)); [discriminate | reflexivity|].
      rewrite Hu. eapply Qle_trans; [exact Hb|].
      apply Qle_lteq. right. reflexivity.
    + rewrite Hu. reflexivity.
  - assert (H3 : (ilog2 x <= 3)%Z) by lia.
    assert (Hu : (ulpExp x <= -49)%Z) by (unfold ulpExp; lia).
    assert (H16 : (inject_Z (2 ^ (4 - ulpExp x)) * pow2 (ulpExp x)
                   == inject_Z 16)%Q).
    { rewrite <- pow2_Z by lia. rewrite <- pow2_add.
      replace (4 - ulpExp x + ulpExp x)%Z with 4%Z by lia. reflexivity. }
    apply Qle_lt_trans
      with (inject_Z (2 ^ (4 - ulpExp x)) * pow2 (ulpExp x))%Q.
    + apply (nearest_le x _ 0); [discriminate | reflexivity|].
      rewrite Qplus_0_r, H16.
      apply Qlt_le_weak. eapply Qlt_le_trans; [exact Hhi|].
      change (inject_Z 16) with (pow2 4). apply pow2_le. lia.
    + rewrite H16. reflexivity.
Qed.

Lemma draw_times_21 r :
  unitDouble r ->
  exists z, floor (times r 21) = ofZ z /\ (0 <= z <= 20)%Z.
Proof.
  intro Hr. destruct (unitDouble_bounds r Hr) as [H0 H1].
  unfold times, toDouble.
  destruct (r * 21 ?= 0)%Q eqn:E.
  - exists 0%Z. split; [reflexivity | lia].
  - apply Qlt_alt in E. exfalso. apply (Qlt_not_le _ _ E).
    apply Qmult_le_0_compat; [exact H0 | discriminate].
  - apply Qgt_alt in E.
    assert (Hb : (r * 21 <= inject_Z (2 ^ 53 - 1) * pow2 (-53) * 21)%Q)
      by (apply Qmult_le_compat_r; [exact H1 | discriminate]).
    pose proof (nearest_below_21 _ E Hb) as H21.
    pose proof (nearest_nonneg _ E) as Hn.
    destruct (Qle_bool (pow2 1024) (nearest (r * 21))) eqn:Eo.
    + exfalso. apply Qle_bool_iff in Eo.
      apply (Qlt_irrefl (nearest (r * 21))).
      eapply Qlt_le_trans; [exact H21|].
      eapply Qle_trans; [|exact Eo]. discriminate.
    + cbn [floor]. exists (Qfloor (Qred (nearest (r * 21)))).
      split; [reflexivity|].
      rewrite (Qfloor_comp _ _ (Qred_correct _)). split.
      * change 0%Z with (Qfloor 0). now apply Qfloor_resp_le.
      * apply Z.lt_succ_r. rewrite Zlt_Qlt.
        eapply Qle_lt_trans; [apply Qfloor_le | exact H21].
Qed.

Lemma plus_75 z : (0 <= z <= 20)%Z -> plus (ofZ z) 75 = ofZ (z + 75).
Proof.
  intro H.
  assert (C : (z = 0 \/ z = 1 \/ z = 2 \/ z = 3 \/ z = 4 \/ z = 5 \/ z = 6
              \/ z = 7 \/ z = 8 \/ z = 9 \/ z = 10 \/ z = 11 \/ z = 12
              \/ z = 13 \/ z = 14 \/ z = 15 \/ z = 16 \/ z = 17 \/ z = 18
              \/ z = 19 \/ z = 20)%Z) by lia.
  repeat destruct C as [C|C]; subst z; vm_compute; reflexivity.
Qed.

(** A rational with few binary digits is such a double. *)
Lemma unitDouble_scaled (r : Q) (m : Z) :
  (0 <= m < 2 ^ 53)%Z ->
  (r * inject_Z (2 ^ 53) == inject_Z m)%Q ->
  unitDouble r.
Proof.
  intros Hm Hr. exists m, 53%Z. split; [exact Hm|]. split; [lia|].
  rewrite <- Hr, <- Qmult_assoc.
  setoid_replace (inject_Z (2 ^ 53) * pow2 (- (53)))%Q with 1%Q
    by reflexivity.
  now rewrite Qmult_1_r.
Qed.

End DoubleFacts.

Section Mock.

Variable Math_random : nat -> Q.

(** The object of [performMockAnalysis] for two draws, with the tag and
    the reason it ends up with. *)
Definition mockObject (r1 r2 : Q) (method : jstring)
           (reason : option jstring) : AnalysisResult :=
  mkResult (negb (Qle_bool r1 (1 # 2)))
           (JSMath.plus (JSMath.floor (JSMath.times r2 21)) 75)
           (if negb (Qle_bool r1 (1 # 2))
            then authenticObservations else generatedObservations)
           method reason.

Definition drawnMock (w : World) method reason : AnalysisResult :=
  mockObject (Math_random (drawn w)) (Math_random (S (drawn w)))
             method reason.

Lemma performMockAnalysis_run w :
  performMockAnalysis Math_random w =
  (Returns (length (heap w)),
   mkWorld (heap w ++ [drawnMock w "mock" None]) (S (S (drawn w)))
           (log w ++ [ENew (length (heap w))])).
Proof. reflexivity. Qed.

Lemma mockFallback_run e w :
  mockFallback Math_random e w =
  (Returns (length (heap w)),
   mkWorld (heap w ++ [drawnMock w "mock-fallback" (Some (message e))])
           (S (S (drawn w)))
           (log w ++ [ENew (length (heap w));
                      ESet (length (heap w)) FAnalysisMethod;
                      ESet (length (heap w)) FFallbackReason])).
Proof.
  unfold mockFallback, bind.
  rewrite performMockAnalysis_run.
  unfold setAnalysisMethod, setFallbackReason, assign, ret. simpl.
  rewrite !update_snoc, <- !app_assoc. reflexivity.
Qed.

(** The confidence of the mock object is an integer from 75 to 95,
    whatever double is drawn. *)
Lemma mock_confidence_range (r2 : Q) :
  JSMath.unitDouble r2 ->
  exists z, JSMath.plus (JSMath.floor (JSMath.times r2 21)) 75 = JSMath.ofZ z
            /\ (75 <= z <= 95)%Z.
Proof.
  intro Hr. destruct (DoubleFacts.draw_times_21 r2 Hr) as (z & -> & Hz).
  exists (z + 75)%Z. split; [now apply DoubleFacts.plus_75 | lia].
Qed.

End Mock.

(** ** The two analysers, path by path *)

Inductive Path : Type := Strict | Heuristic | MockFallback | Mock.

(** The world an analyser leaves: one request sent, one object built, and
    on the catch-all path two draws and two assignments to that object. *)
Definition finished (w : World) (req : Request) (path : Path)
           (o : AnalysisResult) : outcome loc * World :=
  let l := length (heap w) in
  match path with
  | MockFallback =>
      (Returns l,
       mkWorld (heap w ++ [o]) (S (S (drawn w)))
               (log w ++ [EFetch req; ENew l;
                          ESet l FAnalysisMethod; ESet l FFallbackReason]))
  | _ =>
      (Returns l,
       mkWorld (heap w ++ [o]) (drawn w) (log w ++ [EFetch req; ENew l]))
  end.

(** The reply text of a provider, or the error that reaches the outer
    [catch]. *)
Definition providerText (name : jstring) (extract : json -> Comp jstring)
           (fetched : outcome Response) : outcome jstring :=
  match fetched with
  | Throws e => Throws e
  | Returns response =>
      if ok response then
        match body_json response with
        | Returns data => evalIn (extract data)
        | Throws e => Throws e
        end
      else
        match text response with
        | Returns errorText =>
            Throws (Error (name ++ lit " API error: "
                           ++ JSString.ofNat (status response)
                           ++ lit " - " ++ errorText))
        | Throws e => Throws e
        end
  end.

Section Analysers.

Variable CLAUDE_KEY DEEPSEEK_KEY : option jstring.
Variable fetch : Request -> outcome Response.
Variable Math_random : nat -> Q.
Variable JSON_parse : jstring -> outcome json.
Variable TypeError : value -> jstring -> JsError.

(** Strict parse, else the heuristic object. *)
Definition settle (method : jstring) (heuristic : jstring -> AnalysisResult)
           (t : jstring) : Path * AnalysisResult :=
  match JSON_parse (extractJsonText t) with
  | Returns parsed =>
      match accepted method parsed with
      | Some o => (Strict, o)
      | None => (Heuristic, heuristic t)
      end
  | Throws _ => (Heuristic, heuristic t)
  end.

Definition outcomeOf (w : World) (req : Request) (method : jstring)
           (heuristic : jstring -> AnalysisResult)
           (reply : outcome jstring) : Path * AnalysisResult :=
  match reply with
  | Returns t => settle method heuristic t
  | Throws e =>
      (MockFallback,
       drawnMock Math_random w "mock-fallback" (Some (message e)))
  end.

Lemma settle_run method heuristic fallback t w req :
  (forall w', fallback w' = allocated w' (heuristic t)) ->
  tryCatch (parseStrict JSON_parse TypeError method t)
           (fun _ => fallback)
           (mkWorld (heap w) (drawn w) (log w ++ [EFetch req]))
  = finished w req (fst (settle method heuristic t))
             (snd (settle method heuristic t)).
Proof.
  intro Hf. unfold tryCatch, settle.
  set (w1 := mkWorld (heap w) (drawn w) (log w ++ [EFetch req])).
  pose proof (parseStrict_run JSON_parse TypeError method t w1) as H.
  destruct (JSON_parse (extractJsonText t)) as [parsed|e].
  - destruct (accepted method parsed) as [o|].
    + rewrite H. unfold allocated, finished, w1; simpl.
      now rewrite <- app_assoc.
    + destruct H as [e H]. rewrite H, Hf.
      unfold allocated, finished, w1; simpl. now rewrite <- app_assoc.
  - rewrite H, Hf.
    unfold allocated, finished, w1; simpl. now rewrite <- app_assoc.
Qed.

Lemma doFetch_run req w :
  doFetch fetch req w =
  (fetch req, mkWorld (heap w) (drawn w) (log w ++ [EFetch req])).
Proof. reflexivity. Qed.

Lemma mockFallback_finished e w req :
  mockFallback Math_random e
               (mkWorld (heap w) (drawn w) (log w ++ [EFetch req]))
  = finished w req MockFallback
             (drawnMock Math_random w "mock-fallback" (Some (message e))).
Proof.
  rewrite mockFallback_run. unfold finished, drawnMock; simpl.
  now rewrite <- app_assoc.
Qed.

Theorem analyzeWithClaude_run base64Data mediaType w :
  let req := claudeRequest CLAUDE_KEY base64Data mediaType in
  let r := outcomeOf w req "claude-api" claudeHeuristic
             (providerText "Claude" (claudeText TypeError) (fetch req)) in
  analyzeWithClaude CLAUDE_KEY fetch Math_random JSON_parse TypeError
                    base64Data mediaType w
  = finished w req (fst r) (snd r).
Proof.
  intros req r. subst r.
  unfold analyzeWithClaude, providerText, outcomeOf. fold req.
  rewrite tryCatch_run, bind_run, doFetch_run.
  destruct (fetch req) as [response|e];
    [|apply mockFallback_finished].
  rewrite bind_run.
  destruct (ok response); cbn [negb]; cbv beta iota.
  - unfold ret at 1. rewrite bind_run. unfold lift at 1.
    destruct (body_json response) as [data|e];
      [|apply mockFallback_finished].
    rewrite bind_run, (pure_claudeText TypeError data).
    destruct (evalIn _) as [t|e];
      [|apply mockFallback_finished].
    rewrite settle_run with (heuristic := claudeHeuristic);
      [|intro w'; reflexivity].
    now destruct (fst (settle _ _ t)).
  - rewrite bind_run. unfold lift at 1.
    destruct (text response) as [errorText|e];
      apply mockFallback_finished.
Qed.

Theorem analyzeWithDeepSeek_run base64Data mediaType w :
  let req := deepSeekRequest DEEPSEEK_KEY base64Data mediaType in
  let r := outcomeOf w req "deepseek-api" deepSeekHeuristic
             (providerText "DeepSeek" (deepSeekText TypeError) (fetch req)) in
  analyzeWithDeepSeek DEEPSEEK_KEY fetch Math_random JSON_parse TypeError
                      base64Data mediaType w
  = finished w req (fst r) (snd r).
Proof.
  intros req r. subst r.
  unfold analyzeWithDeepSeek, providerText, outcomeOf. fold req.
  rewrite tryCatch_run, bind_run, doFetch_run.
  destruct (fetch req) as [response|e];
    [|apply mockFallback_finished].
  rewrite bind_run.
  destruct (ok response); cbn [negb]; cbv beta iota.
  - unfold ret at 1. rewrite bind_run. unfold lift at 1.
    destruct (body_json response) as [data|e];
      [|apply mockFallback_finished].
    rewrite bind_run, (pure_deepSeekText TypeError data).
    destruct (evalIn _) as [t|e];
      [|apply mockFallback_finished].
    rewrite settle_run with (heuristic := deepSeekHeuristic);
      [|intro w'; reflexivity].
    now destruct (fst (settle _ _ t)).
  - rewrite bind_run. unfold lift at 1.
    destruct (text response) as [errorText|e];
      apply mockFallback_finished.
Qed.

End Analysers.

(** ** The handler *)

Section Handler.

Import JSString.

Variable CLAUDE_KEY DEEPSEEK_KEY : option jstring.
Variable fetch : Request -> outcome Response.
Variable Math_random : nat -> Q.
Variable JSON_parse : jstring -> outcome json.
Variable TypeError : value -> jstring -> JsError.

Lemma split_not_nil sep s : split sep s <> [].
Proof.
  destruct s as [|c s]; simpl; [discriminate|].
  destruct (Ascii.eqb c sep); [discriminate|].
  destruct (split sep s); discriminate.
Qed.

Lemma split_second sep s :
  includes s [sep] = true -> exists d, nth_error (split sep s) 1 = Some d.
Proof.
  induction s as [|c s IH]; simpl; [discriminate|].
  unfold startsWith; simpl. rewrite andb_true_r, Ascii.eqb_sym.
  destruct (Ascii.eqb c sep) eqn:E; simpl.
  - intros _. pose proof (split_not_nil sep s) as Hn.
    destruct (split sep s) as [|d ds]; [contradiction|]. now exists d.
  - intro H. destruct (IH H) as [d Hd].
    destruct (split sep s) as [|l [|d' ds]]; simpl in *;
      try discriminate. now exists d.
Qed.

(** The payload and the media type the handler passes on. *)
Definition dataUrlParts (image : jstring) : json * jstring :=
  if includes image "," then
    (JStr (nth 1 (split ","%char image) []),
     match matchMime (hd [] (split ","%char image)) with
     | Some m => m
     | None => lit "image/jpeg"
     end)
  else (JStr image, lit "image/jpeg").

Lemma splitDataUrl_run image w :
  splitDataUrl TypeError (JStr image) w = (Returns (dataUrlParts image), w).
Proof.
  unfold splitDataUrl, dataUrlParts.
  destruct (includes image ",") eqn:E; [|reflexivity].
  destruct (split_second ","%char image E) as [d Hd].
  rewrite Hd. unfold ret. do 4 f_equal.
  symmetry. now apply nth_error_nth.
Qed.

Lemma readResult_finished w req path o :
  bind (fun _ => finished w req path o) (readResult TypeError) w
  = (Returns o, snd (finished w req path o)).
Proof.
  rewrite bind_run.
  destruct path; unfold finished, readResult, deref; simpl;
    now rewrite nth_error_snoc.
Qed.

(** Which provider a request goes to: decided by the keys alone. *)
Inductive Provider : Type := Claude | DeepSeek | NoProvider.

Definition selectProvider : Provider :=
  if configured CLAUDE_KEY then Claude
  else if configured DEEPSEEK_KEY then DeepSeek
  else NoProvider.

(** The path, the object and the final world of an accepted request. *)
Definition servedParts (parts : json * jstring) (w : World)
  : Path * AnalysisResult * World :=
  let '(base64Data, mediaType) := parts in
  match selectProvider with
  | Claude =>
      let req := claudeRequest CLAUDE_KEY base64Data mediaType in
      let r := outcomeOf Math_random JSON_parse w req "claude-api"
                 claudeHeuristic
                 (providerText "Claude" (claudeText TypeError) (fetch req)) in
      (r, snd (finished w req (fst r) (snd r)))
  | DeepSeek =>
      let req := deepSeekRequest DEEPSEEK_KEY base64Data mediaType in
      let r := outcomeOf Math_random JSON_parse w req "deepseek-api"
                 deepSeekHeuristic
                 (providerText "DeepSeek" (deepSeekText TypeError)
                               (fetch req)) in
      (r, snd (finished w req (fst r) (snd r)))
  | NoProvider =>
      (Mock, drawnMock Math_random w "mock" None,
       mkWorld (heap w ++ [drawnMock Math_random w "mock" None])
               (S (S (drawn w))) (log w ++ [ENew (length (heap w))]))
  end.

Definition served (image : jstring) (w : World)
  : Path * AnalysisResult * World :=
  servedParts (dataUrlParts image) w.

(** An upload whose payload could be read is answered 200. *)
Lemma analyze_parts image parts w :
  truthy (Some image) = true ->
  splitDataUrl TypeError image w = (Returns parts, w) ->
  analyze CLAUDE_KEY DEEPSEEK_KEY fetch Math_random JSON_parse TypeError
          (Some image) w
  = (Json 200 (snd (fst (servedParts parts w))), snd (servedParts parts w)).
Proof.
  intros Ht Hs. unfold analyze, servedParts, selectProvider.
  rewrite Ht, bind_run, Hs.
  destruct parts as [base64Data mediaType].
  rewrite bind_run.
  destruct (configured CLAUDE_KEY); [|destruct (configured DEEPSEEK_KEY)].
  - rewrite analyzeWithClaude_run.
    set (req := claudeRequest _ _ _). set (r := outcomeOf _ _ _ _ _ _ _).
    pose proof (readResult_finished w req (fst r) (snd r)) as H.
    rewrite bind_run in H.
    destruct (finished w req (fst r) (snd r)) as [[l|e] w'] eqn:Ef.
    + simpl in H. rewrite H. reflexivity.
    + destruct (fst r); discriminate Ef.
  - rewrite analyzeWithDeepSeek_run.
    set (req := deepSeekRequest _ _ _). set (r := outcomeOf _ _ _ _ _ _ _).
    pose proof (readResult_finished w req (fst r) (snd r)) as H.
    rewrite bind_run in H.
    destruct (finished w req (fst r) (snd r)) as [[l|e] w'] eqn:Ef.
    + simpl in H. rewrite H. reflexivity.
    + destruct (fst r); discriminate Ef.
  - rewrite performMockAnalysis_run. unfold readResult, deref; simpl.
    now rewrite nth_error_snoc.
Qed.

(** An upload whose payload cannot be read is answered 500, before any
    provider is called or any number drawn. *)
Lemma analyze_fails image e w :
  truthy (Some image) = true ->
  splitDataUrl TypeError image w = (Throws e, w) ->
  analyze CLAUDE_KEY DEEPSEEK_KEY fetch Math_random JSON_parse TypeError
          (Some image) w
  = (Failure 500 "Failed to analyze image" (message e), w).
Proof.
  intros Ht Hs. unfold analyze. now rewrite Ht, bind_run, Hs.
Qed.

Theorem analyze_run c rest w :
  let image := c :: rest in
  analyze CLAUDE_KEY DEEPSEEK_KEY fetch Math_random JSON_parse TypeError
          (Some (JStr image)) w
  = (Json 200 (snd (fst (served image w))), snd (served image w)).
Proof.
  intro image. apply analyze_parts; [reflexivity|apply splitDataUrl_run].
Qed.

(** What reading the upload gives, by the kind of value uploaded. *)
Lemma splitDataUrl_cases image w :
  match image with
  | JStr s => splitDataUrl TypeError image w = (Returns (dataUrlParts s), w)
  | JArr items =>
      if existsb isComma items
      then splitDataUrl TypeError image w
           = (Throws (TypeError (Some image) "split"), w)
      else splitDataUrl TypeError image w
           = (Returns (image, lit "image/jpeg"), w)
  | _ => splitDataUrl TypeError image w
         = (Throws (TypeError (Some image) "includes"), w)
  end.
Proof.
  destruct image; try reflexivity.
  - apply splitDataUrl_run.
  - unfold splitDataUrl. now destruct (existsb isComma _).
Qed.

Lemma analyze_rejects image w :
  truthy image = false ->
  analyze CLAUDE_KEY DEEPSEEK_KEY fetch Math_random JSON_parse TypeError
          image w
  = (Failure 400 "No image provided" "Please upload an image to analyze", w).
Proof.
  intro H. unfold analyze. destruct image as [image|]; [|reflexivity].
  now rewrite H.
Qed.

End Handler.

(** ** Every way a result is produced *)

Section Produced.

Variable Math_random : nat -> Q.
Variable JSON_parse : jstring -> outcome json.

Inductive Produced (w : World) : Path -> AnalysisResult -> Prop :=
| ByStrictClaude t parsed o :
    JSON_parse (extractJsonText t) = Returns parsed ->
    accepted "claude-api" parsed = Some o ->
    Produced w Strict o
| ByStrictDeepSeek t parsed o :
    JSON_parse (extractJsonText t) = Returns parsed ->
    accepted "deepseek-api" parsed = Some o ->
    Produced w Strict o
| ByClaudeHeuristic t : Produced w Heuristic (claudeHeuristic t)
| ByDeepSeekHeuristic t : Produced w Heuristic (deepSeekHeuristic t)
| ByMockFallback e :
    Produced w MockFallback
             (drawnMock Math_random w "mock-fallback" (Some (message e)))
| ByMock : Produced w Mock (drawnMock Math_random w "mock" None).

Lemma outcomeOf_claude w req reply :
  let r := outcomeOf Math_random JSON_parse w req "claude-api"
                     claudeHeuristic reply in
  Produced w (fst r) (snd r).
Proof.
  unfold outcomeOf, settle. destruct reply as [t|e]; simpl.
  - destruct (JSON_parse (extractJsonText t)) as [parsed|e] eqn:E; simpl.
    + destruct (accepted "claude-api" parsed) as [o|] eqn:Ea; simpl.
      * eapply ByStrictClaude; eassumption.
      * apply ByClaudeHeuristic.
    + apply ByClaudeHeuristic.
  - apply ByMockFallback.
Qed.

Lemma outcomeOf_deepSeek w req reply :
  let r := outcomeOf Math_random JSON_parse w req "deepseek-api"
                     deepSeekHeuristic reply in
  Produced w (fst r) (snd r).
Proof.
  unfold outcomeOf, settle. destruct reply as [t|e]; simpl.
  - destruct (JSON_parse (extractJsonText t)) as [parsed|e] eqn:E; simpl.
    + destruct (accepted "deepseek-api" parsed) as [o|] eqn:Ea; simpl.
      * eapply ByStrictDeepSeek; eassumption.
      * apply ByDeepSeekHeuristic.
    + apply ByDeepSeekHeuristic.
  - apply ByMockFallback.
Qed.

Lemma servedParts_produced CLAUDE_KEY DEEPSEEK_KEY fetch TypeError parts w :
  let s := servedParts CLAUDE_KEY DEEPSEEK_KEY fetch Math_random JSON_parse
                       TypeError parts w in
  Produced w (fst (fst s)) (snd (fst s)).
Proof.
  unfold servedParts. destruct parts as [b m].
  destruct (selectProvider CLAUDE_KEY DEEPSEEK_KEY); simpl.
  - apply outcomeOf_claude.
  - apply outcomeOf_deepSeek.
  - apply ByMock.
Qed.

Lemma served_produced CLAUDE_KEY DEEPSEEK_KEY fetch TypeError image w :
  let s := served CLAUDE_KEY DEEPSEEK_KEY fetch Math_random JSON_parse
                  TypeError image w in
  Produced w (fst (fst s)) (snd (fst s)).
Proof.
  unfold served, servedParts. destruct (dataUrlParts image) as [b m].
  destruct (selectProvider CLAUDE_KEY DEEPSEEK_KEY); simpl.
  - apply outcomeOf_claude.
  - apply outcomeOf_deepSeek.
  - apply ByMock.
Qed.

Lemma accepted_fields method parsed o :
  accepted method parsed = Some o ->
  exists n, confidence o = clamp n /\ analysisMethod o = method
            /\ fallbackReason o = None.
Proof.
  unfold accepted. destruct parsed as [ | | | | |fields]; try discriminate.
  destruct (assoc "isOriginal" fields) as [[ |b| | | | ]|]; try discriminate.
  destruct (assoc "confidence" fields) as [[ | |n| | | ]|]; try discriminate.
  destruct (assoc "observations" fields) as [[ | | | |obs| ]|];
    try discriminate.
  intro H. injection H as <-. now exists n.
Qed.

End Produced.

(** ** Numbers *)

Lemma Qle_bool_inject (a b : Z) :
  Qle_bool (inject_Z a) (inject_Z b) = (a <=? b)%Z.
Proof.
  unfold Qle_bool, inject_Z; simpl. now rewrite !Z.mul_1_r.
Qed.

Lemma leb_ofZ (a b : Z) :
  JSMath.leb (JSMath.ofZ a) (JSMath.ofZ b) = (a <=? b)%Z.
Proof. apply Qle_bool_inject. Qed.

Lemma max_ofZ (a b : Z) :
  JSMath.max (JSMath.ofZ a) (JSMath.ofZ b) = JSMath.ofZ (Z.max a b).
Proof.
  unfold JSMath.max. rewrite leb_ofZ.
  destruct (a <=? b)%Z eqn:E; f_equal; lia.
Qed.

Lemma min_ofZ (a b : Z) :
  JSMath.min (JSMath.ofZ a) (JSMath.ofZ b) = JSMath.ofZ (Z.min a b).
Proof.
  unfold JSMath.min. rewrite leb_ofZ.
  destruct (a <=? b)%Z eqn:E; f_equal; lia.
Qed.

Lemma clamp_finite (q : Q) :
  clamp (Fin q) = JSMath.ofZ (Z.min 100 (Z.max 0 (Qfloor (q + (1 # 2))))).
Proof.
  unfold clamp. cbn [JSMath.round]. now rewrite max_ofZ, min_ofZ.
Qed.

Lemma clamp_range n :
  exists z, clamp n = JSMath.ofZ z /\ (0 <= z <= 100)%Z.
Proof.
  destruct n as [q| | ].
  - rewrite clamp_finite. eexists. split; [reflexivity | lia].
  - exists 100%Z. split; [reflexivity | lia].
  - exists 0%Z. split; [reflexivity | lia].
Qed.

(** The provenance tags are pairwise distinct from ["mock-fallback"]. *)
Lemma tags_distinct :
  lit "claude-api" <> lit "mock-fallback"
  /\ lit "deepseek-api" <> lit "mock-fallback"
  /\ lit "claude-api-fallback" <> lit "mock-fallback"
  /\ lit "deepseek-api-fallback" <> lit "mock-fallback"
  /\ lit "mock" <> lit "mock-fallback".
Proof. repeat split; discriminate. Qed.

(** ** Global replacement around a unit no match can touch *)

Module ReplaceFacts.

Import JSString.

Section Neutral.

Variable eq : ascii -> ascii -> bool.
Variable p : jstring.
Variable c : ascii.

(** [c] matches no unit of the literal and is not the line feed. *)
Hypothesis c_outside : forallb (fun x => negb (eq x c)) p = true.
Hypothesis c_not_lf : Ascii.eqb c "010"%char = false.
Hypothesis p_not_empty : p <> [].

Let m := matchLiteralNl eq p.

Lemma startsWithBy_length q s :
  startsWithBy eq q s = true -> length q <= length s.
Proof.
  revert s. induction q as [|x q IH]; intros [|y s]; simpl;
    try lia; try discriminate.
  intro H. apply andb_true_iff in H as [_ H]. apply IH in H. lia.
Qed.

Lemma startsWithBy_before q a b :
  forallb (fun x => negb (eq x c)) q = true ->
  startsWithBy eq q (a ++ c :: b) = startsWithBy eq q a.
Proof.
  revert a. induction q as [|x q IH]; intros a Hq; [reflexivity|].
  simpl in Hq. apply andb_true_iff in Hq as [Hx Hq].
  destruct a as [|y a]; simpl.
  - apply negb_true_iff in Hx. now rewrite Hx.
  - now rewrite IH.
Qed.

Lemma match_within s n : m s = Some n -> n <= length s.
Proof.
  unfold m, matchLiteralNl.
  destruct (startsWithBy eq p s) eqn:E; [|discriminate].
  apply startsWithBy_length in E.
  destruct (skipn (length p) s) as [|x r] eqn:Es.
  - intro H. injection H as <-. exact E.
  - assert (Hl : length (skipn (length p) s) = S (length r))
      by now rewrite Es.
    rewrite length_skipn in Hl.
    destruct (Ascii.eqb x "010"%char); intro H; injection H as <-; lia.
Qed.

Lemma match_before a b : a <> [] -> m (a ++ c :: b) = m a.
Proof.
  intro Ha. unfold m, matchLiteralNl.
  rewrite startsWithBy_before by exact c_outside.
  destruct (startsWithBy eq p a) eqn:E; [|reflexivity].
  apply startsWithBy_length in E.
  rewrite skipn_app.
  replace (length p - length a) with 0 by lia. simpl skipn at 2.
  destruct (skipn (length p) a) as [|x r]; simpl; [|reflexivity].
  now rewrite c_not_lf.
Qed.

Lemma match_at_neutral b : m (c :: b) = None.
Proof.
  unfold m, matchLiteralNl.
  destruct p as [|x q]; [contradiction|]. simpl.
  simpl in c_outside. apply andb_true_iff in c_outside as [Hx _].
  apply negb_true_iff in Hx. now rewrite Hx.
Qed.

Lemma replaceFrom_neutral a b k :
  k <= length a ->
  replaceFrom m k (a ++ c :: b)
  = replaceFrom m k a ++ c :: removeAll m b.
Proof.
  revert k. induction a as [|x a IH]; intros k Hk.
  - simpl in Hk. assert (k = 0) by lia. subst k.
    cbn [app replaceFrom]. now rewrite match_at_neutral.
  - destruct k as [|k]; cbn [app replaceFrom].
    + change (x :: a ++ c :: b) with ((x :: a) ++ c :: b).
      rewrite match_before by discriminate.
      destruct (m (x :: a)) as [[|n]|] eqn:E.
      * rewrite IH by lia. reflexivity.
      * apply match_within in E. simpl in E.
        rewrite IH by lia. reflexivity.
      * rewrite IH by lia. reflexivity.
    + simpl in Hk. rewrite IH by lia. reflexivity.
Qed.

(** The replacement distributes over a unit that no match can touch. *)
Lemma removeAll_neutral a b :
  removeAll m (a ++ c :: b) = removeAll m a ++ c :: removeAll m b.
Proof. apply replaceFrom_neutral. lia. Qed.

End Neutral.

(** Where the pattern matches nowhere, nothing is replaced. *)
Fixpoint matchesNowhere (m : jstring -> option nat) (s : jstring) : Prop :=
  match s with
  | [] => True
  | _ :: s' => m s = None /\ matchesNowhere m s'
  end.

Lemma removeAll_nowhere m s : matchesNowhere m s -> removeAll m s = s.
Proof.
  unfold removeAll. induction s as [|x s IH]; [reflexivity|].
  intros [H0 H]. cbn [replaceFrom]. rewrite H0. now rewrite IH.
Qed.

End ReplaceFacts.

(** ** Fenced replies *)

Module FenceFacts.

Import JSString ReplaceFacts.

Definition LF : ascii := "010"%char.

(** A reply wrapped in a fenced code block: the opening fence with its
    language tag, the text on lines of its own, the closing fence. *)
Definition fenced (lang : jstring) (J : jstring) : jstring :=
  lit "```" ++ lang ++ LF :: J ++ LF :: lit "```".

(** A JSON object as text: braces around [mid], JSON white space around
    the braces. *)
Definition objectText (ws1 mid ws2 : jstring) : jstring :=
  ws1 ++ "{"%char :: mid ++ "}"%char :: ws2.

Definition spaces (ws : jstring) : bool := forallb JSONText.isJsonSpace ws.

Lemma jsonSpace_cases c :
  JSONText.isJsonSpace c = true ->
  c = " "%char \/ c = "009"%char \/ c = "010"%char \/ c = "013"%char.
Proof.
  unfold JSONText.isJsonSpace. cbn [existsb].
  rewrite !orb_true_iff, !Ascii.eqb_eq.
  intros [H|[H|[H|[H|H]]]]; auto; discriminate.
Qed.

Lemma jsonSpace_white c :
  JSONText.isJsonSpace c = true -> isWhiteSpace c = true.
Proof.
  intro H. destruct (jsonSpace_cases c H) as [->|[->|[->| ->]]];
    reflexivity.
Qed.

Lemma brace_split_fence (c : ascii) a b :
  c = "{"%char \/ c = "}"%char ->
  removeAll reFence (a ++ c :: b)
  = removeAll reFence a ++ c :: removeAll reFence b.
Proof.
  intros [-> | ->]; apply removeAll_neutral;
    solve [reflexivity | discriminate].
Qed.

Lemma brace_split_fenceJson (c : ascii) a b :
  c = "{"%char \/ c = "}"%char ->
  removeAll reFenceJson (a ++ c :: b)
  = removeAll reFenceJson a ++ c :: removeAll reFenceJson b.
Proof.
  intros [-> | ->]; apply removeAll_neutral;
    solve [reflexivity | discriminate].
Qed.

Lemma space_no_fence c r :
  JSONText.isJsonSpace c = true ->
  reFence (c :: r) = None /\ reFenceJson (c :: r) = None.
Proof.
  intro H. destruct (jsonSpace_cases c H) as [->|[->|[->| ->]]];
    split; reflexivity.
Qed.

Lemma spaces_nowhere ws :
  spaces ws = true ->
  matchesNowhere reFence ws /\ matchesNowhere reFenceJson ws.
Proof.
  induction ws as [|c ws IH]; simpl; [tauto|].
  intro H. apply andb_true_iff in H as [Hc Hws].
  destruct (IH Hws) as [H1 H2].
  destruct (space_no_fence c ws Hc) as [H3 H4]. tauto.
Qed.

Lemma removeAll_step m c r :
  m (c :: r) = None -> removeAll m (c :: r) = c :: removeAll m r.
Proof. intro H. unfold removeAll. cbn [replaceFrom]. now rewrite H. Qed.

(** The closing fence after trailing white space. *)
Lemma tail_fenceJson ws :
  spaces ws = true ->
  removeAll reFenceJson (ws ++ LF :: lit "```") = ws ++ LF :: lit "```".
Proof.
  induction ws as [|c ws IH]; [reflexivity|].
  simpl. intro H. apply andb_true_iff in H as [Hc Hws].
  rewrite removeAll_step by apply (space_no_fence c _ Hc).
  now rewrite IH.
Qed.

Lemma tail_fence ws :
  spaces ws = true ->
  removeAll reFence (ws ++ LF :: lit "```") = ws ++ [LF].
Proof.
  induction ws as [|c ws IH]; [reflexivity|].
  simpl. intro H. apply andb_true_iff in H as [Hc Hws].
  rewrite removeAll_step by apply (space_no_fence c _ Hc).
  now rewrite IH.
Qed.

(** The opening fence. *)
Lemma head_json_fenceJson s :
  removeAll reFenceJson (lit "```" ++ lit "json" ++ LF :: s)
  = removeAll reFenceJson s.
Proof. reflexivity. Qed.

Lemma head_plain_fenceJson s :
  removeAll reFenceJson (lit "```" ++ [] ++ LF :: s)
  = lit "```" ++ LF :: removeAll reFenceJson s.
Proof. reflexivity. Qed.

Lemma head_plain_fence s :
  removeAll reFence (lit "```" ++ LF :: s) = removeAll reFence s.
Proof. reflexivity. Qed.

End FenceFacts.

Module TrimFacts.

Import JSString.

Definition white (ws : jstring) : bool := forallb isWhiteSpace ws.

Lemma trimStart_white ws x r :
  white ws = true -> isWhiteSpace x = false ->
  trimStart (ws ++ x :: r) = x :: r.
Proof.
  intros Hws Hx. induction ws as [|c ws IH]; simpl.
  - now rewrite Hx.
  - simpl in Hws. apply andb_true_iff in Hws as [Hc Hws].
    rewrite Hc. now apply IH.
Qed.

Lemma trimEnd_white ws : white ws = true -> trimEnd ws = [].
Proof.
  induction ws as [|c ws IH]; [reflexivity|]. simpl.
  intro H. apply andb_true_iff in H as [Hc Hws].
  now rewrite IH, Hc.
Qed.

Lemma trimEnd_kept s y ws :
  white ws = true -> isWhiteSpace y = false ->
  trimEnd (s ++ y :: ws) = s ++ [y].
Proof.
  intros Hws Hy. induction s as [|x s IH]; cbn [app trimEnd].
  - now rewrite trimEnd_white, Hy.
  - rewrite IH. now destruct s.
Qed.

(** Trimming strips the white space around a text that starts and ends
    with other units. *)
Lemma trim_around ws1 x s y ws2 :
  white ws1 = true -> white ws2 = true ->
  isWhiteSpace x = false -> isWhiteSpace y = false ->
  trim (ws1 ++ x :: s ++ y :: ws2) = x :: s ++ [y].
Proof.
  intros H1 H2 Hx Hy. unfold trim.
  rewrite trimStart_white by assumption.
  change (x :: s ++ y :: ws2) with ((x :: s) ++ y :: ws2).
  now rewrite trimEnd_kept.
Qed.

Lemma trim_fixed x s y :
  isWhiteSpace x = false -> isWhiteSpace y = false ->
  trim (x :: s ++ [y]) = x :: s ++ [y].
Proof. intros Hx Hy. now apply (trim_around [] x s y []). Qed.

Lemma spaces_white ws : FenceFacts.spaces ws = true -> white ws = true.
Proof.
  unfold FenceFacts.spaces, white. rewrite !forallb_forall.
  intros H c Hc. apply FenceFacts.jsonSpace_white. now apply H.
Qed.

Lemma white_snoc ws c :
  white ws = true -> isWhiteSpace c = true -> white (ws ++ [c]) = true.
Proof.
  intros H Hc. unfold white. rewrite forallb_app. simpl.
  unfold white in H. now rewrite H, Hc.
Qed.

End TrimFacts.

Module StrictText.

Import JSString ReplaceFacts FenceFacts TrimFacts.

(** The fence pass of [extractJsonText]. *)
Definition stripFences (s : jstring) : jstring :=
  removeAll reFence (removeAll reFenceJson s).

Lemma eqbIgnoreCase_backtick y :
  eqbIgnoreCase "`"%char y = Ascii.eqb "`"%char y.
Proof. destruct y as [[] [] [] [] [] [] [] []]; reflexivity. Qed.

Lemma fenceJson_needs_fence s :
  startsWithBy eqbIgnoreCase (lit "```json") s = true ->
  startsWith (lit "```") s = true.
Proof.
  unfold startsWith. change (lit "```json") with ("`" :: "`" :: "`" :: lit "json")%char.
  change (lit "```") with ["`"; "`"; "`"]%char.
  destruct s as [|a [|b [|c s]]]; cbn [startsWithBy];
    rewrite ?eqbIgnoreCase_backtick, ?andb_false_r; try discriminate.
  intro H. apply andb_true_iff in H as [Ha H].
  apply andb_true_iff in H as [Hb H].
  apply andb_true_iff in H as [Hc _].
  now rewrite Ha, Hb, Hc.
Qed.

Lemma no_fence_nowhere s :
  includes s (lit "```") = false ->
  matchesNowhere reFence s /\ matchesNowhere reFenceJson s.
Proof.
  induction s as [|x s IH]; [simpl; tauto|].
  cbn [includes]. intro H. apply orb_false_iff in H as [H0 H].
  destruct (IH H) as [H1 H2]. cbn [matchesNowhere].
  repeat split; try assumption.
  - unfold reFence, matchLiteralNl. fold startsWith. now rewrite H0.
  - unfold reFenceJson, matchLiteralNl.
    destruct (startsWithBy eqbIgnoreCase (lit "```json") (x :: s)) eqn:E;
      [|reflexivity].
    apply fenceJson_needs_fence in E. congruence.
Qed.

Lemma stripFences_nofence s :
  includes s (lit "```") = false -> stripFences s = s.
Proof.
  intro H. destruct (no_fence_nowhere s H) as [H1 H2].
  unfold stripFences. now rewrite (removeAll_nowhere _ s H2), removeAll_nowhere.
Qed.

Lemma stripFences_braces mid :
  stripFences ("{"%char :: mid ++ ["}"%char])
  = "{"%char :: stripFences mid ++ ["}"%char].
Proof.
  unfold stripFences.
  change ("{"%char :: mid ++ ["}"%char])
    with ([] ++ "{"%char :: mid ++ "}"%char :: []).
  rewrite brace_split_fenceJson by auto.
  rewrite brace_split_fenceJson by auto.
  change (removeAll reFenceJson []) with (@nil ascii).
  rewrite brace_split_fence by auto.
  rewrite brace_split_fence by auto.
  reflexivity.
Qed.

(** The text handed to the brace matcher, for an object with white space
    around it: fences inside the object are stripped, if there is one. *)
Lemma prepared_object ws1 mid ws2 :
  spaces ws1 = true -> spaces ws2 = true ->
  (let jsonText := trim (objectText ws1 mid ws2) in
   if includes jsonText (lit "```") then trim (stripFences jsonText)
   else jsonText)
  = "{"%char :: stripFences mid ++ ["}"%char].
Proof.
  intros H1 H2. cbv zeta. unfold objectText.
  rewrite trim_around by (auto using spaces_white).
  destruct (includes _ _) eqn:E.
  - rewrite stripFences_braces. now apply trim_fixed.
  - rewrite <- stripFences_braces. symmetry. now apply stripFences_nofence.
Qed.

Lemma stripFences_fenced lang ws1 mid ws2 :
  spaces ws1 = true -> spaces ws2 = true ->
  lang = [] \/ lang = lit "json" ->
  stripFences (fenced lang (objectText ws1 mid ws2))
  = ws1 ++ "{"%char :: stripFences mid ++ "}"%char :: ws2 ++ [LF].
Proof.
  intros H1 H2 Hlang.
  destruct (spaces_nowhere ws1 H1) as [N1 N1'].
  assert (Hin : removeAll reFenceJson
                  (objectText ws1 mid ws2 ++ LF :: lit "```")
                = ws1 ++ "{"%char :: removeAll reFenceJson mid
                      ++ "}"%char :: ws2 ++ LF :: lit "```").
  { unfold objectText. rewrite <- app_assoc. cbn [app].
    rewrite <- app_assoc. cbn [app].
    rewrite brace_split_fenceJson by auto.
    rewrite brace_split_fenceJson by auto.
    now rewrite (removeAll_nowhere _ ws1 N1'), tail_fenceJson. }
  assert (Hout : removeAll reFence
                   (ws1 ++ "{"%char :: removeAll reFenceJson mid
                        ++ "}"%char :: ws2 ++ LF :: lit "```")
                 = ws1 ++ "{"%char :: stripFences mid
                       ++ "}"%char :: ws2 ++ [LF]).
  { rewrite brace_split_fence by auto.
    rewrite brace_split_fence by auto.
    now rewrite (removeAll_nowhere _ ws1 N1), tail_fence. }
  unfold stripFences at 1, fenced.
  destruct Hlang as [-> | ->].
  - rewrite head_plain_fenceJson, Hin, head_plain_fence. exact Hout.
  - rewrite head_json_fenceJson, Hin. exact Hout.
Qed.

Lemma fenced_trimmed lang J : trim (fenced lang J) = fenced lang J.
Proof.
  unfold fenced. change (lit "```") with ["`"; "`"; "`"]%char.
  replace (["`"; "`"; "`"]%char ++ lang ++ LF :: J ++ LF :: ["`"; "`"; "`"]%char)
    with ("`"%char :: (["`"; "`"]%char ++ lang ++ LF :: J ++ [LF; "`"; "`"]%char)
           ++ ["`"%char]).
  - now apply trim_fixed.
  - cbn [app]. do 3 f_equal. rewrite <- !app_assoc. cbn [app].
    f_equal. f_equal. rewrite <- app_assoc. reflexivity.
Qed.

(** Wrapping an object in a code fence does not change the text that
    reaches [JSON.parse]. *)
Theorem extractJsonText_fenced lang ws1 mid ws2 :
  spaces ws1 = true -> spaces ws2 = true ->
  lang = [] \/ lang = lit "json" ->
  extractJsonText (fenced lang (objectText ws1 mid ws2))
  = extractJsonText (objectText ws1 mid ws2).
Proof.
  intros H1 H2 Hlang. unfold extractJsonText.
  pose proof (prepared_object ws1 mid ws2 H1 H2) as Hu. cbv zeta in Hu.
  fold (stripFences (trim (objectText ws1 mid ws2))).
  rewrite Hu.
  rewrite fenced_trimmed.
  assert (Hi : includes (fenced lang (objectText ws1 mid ws2)) (lit "```")
               = true) by reflexivity.
  rewrite Hi.
  fold (stripFences (fenced lang (objectText ws1 mid ws2))).
  rewrite stripFences_fenced by assumption.
  rewrite trim_around;
    auto using spaces_white, white_snoc.
Qed.

End StrictText.

(** ** Invariants of a produced result *)

(** [n] is an integer between [lo] and [hi]. *)
Definition percent (n : number) (lo hi : Z) : Prop :=
  exists z, n = JSMath.ofZ z /\ (lo <= z <= hi)%Z.

(** The error of a failed provider call: the rejection of [fetch], or the
    error thrown for a status outside 200..299. *)
Definition callFailure (name : jstring) (fetched : outcome Response)
  : option JsError :=
  match fetched with
  | Throws e => Some e
  | Returns response =>
      if ok response then None
      else match text response with
           | Returns errorText =>
               Some (Error (name ++ lit " API error: "
                            ++ JSString.ofNat (status response)
                            ++ lit " - " ++ errorText))
           | Throws e => Some e
           end
  end.

Lemma callFailure_throws name extract fetched e :
  callFailure name fetched = Some e ->
  providerText name extract fetched = Throws e.
Proof.
  unfold callFailure, providerText.
  destruct fetched as [response|e0]; [|congruence].
  destruct (ok response); [discriminate|].
  destruct (text response); congruence.
Qed.

Section Invariants.

Variable Math_random : nat -> Q.
Variable JSON_parse : jstring -> outcome json.

Lemma produced_reason w path o :
  Produced Math_random JSON_parse w path o ->
  (fallbackReason o <> None <-> analysisMethod o = lit "mock-fallback")
  /\ (path = MockFallback <-> analysisMethod o = lit "mock-fallback").
Proof.
  destruct tags_distinct as (T1 & T2 & T3 & T4 & T5).
  intro H. inversion H as [t parsed o' Hp Ha|t parsed o' Hp Ha|t|t|e| ];
    subst; try (apply accepted_fields in Ha as (n & _ & Hm & Hr);
                rewrite Hm, Hr);
    cbn [fallbackReason analysisMethod claudeHeuristic deepSeekHeuristic
         drawnMock mockObject];
    (split; split; intro X;
     solve [congruence | contradiction | discriminate | reflexivity]).
Qed.

Lemma heuristic_confidence heuristic :
  heuristic = claudeHeuristic \/ heuristic = deepSeekHeuristic ->
  forall t, confidence (heuristic t) = JSMath.ofZ 70.
Proof. intros [-> | ->] t; reflexivity. Qed.

(** The confidence after a reply text: the clamped number of an accepted
    object, else 70. *)
Lemma settle_confidence method heuristic t :
  (forall t', confidence (heuristic t') = JSMath.ofZ 70) ->
  let o := snd (settle JSON_parse method heuristic t) in
  percent (confidence o) 0 100
  /\ match JSON_parse (extractJsonText t) with
     | Returns (JObj fields) =>
         match assoc "isOriginal" fields, assoc "confidence" fields,
               assoc "observations" fields with
         | Some (JBool _), Some (JNum n), Some (JArr _) =>
             confidence o = clamp n
         | _, _, _ => confidence o = JSMath.ofZ 70
         end
     | _ => confidence o = JSMath.ofZ 70
     end.
Proof.
  intros Hh o. subst o. unfold settle.
  assert (H70 : percent (JSMath.ofZ 70) 0 100)
    by (exists 70%Z; split; [reflexivity | lia]).
  destruct (JSON_parse (extractJsonText t)) as [parsed|e]; cbn [snd];
    [|rewrite Hh; now split].
  destruct parsed as [ | | | | |fields]; cbn [accepted snd];
    try (rewrite Hh; now split).
  destruct (assoc "isOriginal" fields) as [[ |b| | | | ]|]; cbn [snd];
    try (rewrite Hh; now split).
  destruct (assoc "confidence" fields) as [[ | |n| | | ]|]; cbn [snd];
    try (rewrite Hh; now split).
  destruct (assoc "observations" fields) as [[ | | | |obs| ]|]; cbn [snd];
    try (rewrite Hh; now split).
  cbn [confidence]. split; [apply clamp_range | reflexivity].
Qed.

(** The confidence of a mock object: computed from the second draw. *)
Lemma drawnMock_confidence w method reason :
  JSMath.unitDouble (Math_random (S (drawn w))) ->
  let o := drawnMock Math_random w method reason in
  confidence o
  = JSMath.plus (JSMath.floor (JSMath.times (Math_random (S (drawn w))) 21))
                75
  /\ percent (confidence o) 75 95.
Proof.
  intros Hr o. split; [reflexivity|].
  exact (mock_confidence_range _ Hr).
Qed.

Lemma deref_finished w req path o :
  deref (length (heap w)) (snd (finished w req path o)) = Some o.
Proof. destruct path; unfold finished, deref; simpl; apply nth_error_snoc. Qed.

Lemma resultOf_finished_heuristic w req o :
  resultOf (finished w req Heuristic o) = Some o.
Proof. unfold resultOf, finished, deref; simpl. apply nth_error_snoc. Qed.

Lemma finished_returns w req path o :
  finished w req path o
  = (Returns (length (heap w)), snd (finished w req path o)).
Proof. now destruct path. Qed.

End Invariants.

(** ** Concrete replies *)

Module Examples.

(** A text with ['] standing for the double quote. *)
Definition quoted (s : string) : jstring :=
  map (fun c => if Ascii.eqb c "'"%char then "034"%char else c) (lit s).

Definition engineTypeError (v : value) (p : jstring) : JsError :=
  Error (lit "Cannot read or call property " ++ p).

(** The body of a Claude reply whose text block is [t]. *)
Definition claudeBody (t : jstring) : json :=
  JObj [(lit "content",
         JArr [JObj [(lit "type", JStr "text"); (lit "text", JStr t)]])].

(** The body of a DeepSeek reply whose first choice says [t]. *)
Definition deepSeekBody (t : jstring) : json :=
  JObj [(lit "choices",
         JArr [JObj [(lit "message", JObj [(lit "content", JStr t)])]])].

Definition replying (body : json) : Request -> outcome Response :=
  fun _ => Returns (mkResponse 200 (Returns []) (Returns body)).

Definition refusing (code : nat) (errorText : jstring)
  : Request -> outcome Response :=
  fun _ => Returns (mkResponse code (Returns errorText)
                               (Throws (Error "body is not JSON"))).

Definition unreachable (msg : jstring) : Request -> outcome Response :=
  fun _ => Throws (Error msg).

Definition draws (r1 r2 : Q) : nat -> Q :=
  fun n => if Nat.even n then r1 else r2.

Lemma draws_unit r1 r2 :
  JSMath.unitDouble r1 -> JSMath.unitDouble r2 ->
  forall n, JSMath.unitDouble (draws r1 r2 n).
Proof. intros A B n. unfold draws. now destruct (Nat.even n). Qed.

(** A draw for which the rounding of the product matters: [r * 21] lies
    below 20, and is 20 once rounded to a double. *)
Definition drawNear20 : Q := 4289142502257615 # 4503599627370496.

Lemma quarter_unit : JSMath.unitDouble (1 # 4).
Proof.
  apply (DoubleFacts.unitDouble_scaled _ (2 ^ 51)); [lia | reflexivity].
Qed.

Lemma three_quarters_unit : JSMath.unitDouble (3 # 4).
Proof.
  apply (DoubleFacts.unitDouble_scaled _ (3 * 2 ^ 51)); [lia | reflexivity].
Qed.

Lemma drawNear20_unit : JSMath.unitDouble drawNear20.
Proof.
  apply (DoubleFacts.unitDouble_scaled _ (2 * 4289142502257615));
    [lia | reflexivity].
Qed.

Definition key : option jstring := Some (lit "sk-test").

Definition reply150 : jstring :=
  quoted "{'isOriginal':true,'confidence':150,'observations':['a','b','c','d']}".

Definition fields150 : jstring :=
  quoted "'isOriginal':true,'confidence':150,'observations':['a','b','c','d']".

Definition fenced150 : jstring :=
  FenceFacts.fenced (lit "json") (FenceFacts.objectText [] fields150 []).

Definition replyNoObservations : jstring :=
  quoted "{'isOriginal':true,'confidence':90,'observations':[]}".

(** A valid reply whose only observation quotes a code fence. *)
Definition replyFenceInside : jstring :=
  quoted "{'isOriginal':true,'confidence':90,'observations':['see ```x``` here']}".

Definition replyFreeText : jstring :=
  "This image shows clear AI-generated artifacts in the hands.".

Definition replyFake : jstring := "The picture looks fake to me.".

(** Running an analyser from the empty world and reading its object. *)
Definition claudeOn (fetch : Request -> outcome Response) (rnd : nat -> Q)
  : option AnalysisResult :=
  resultOf (analyzeWithClaude key fetch rnd JSONText.parse engineTypeError
                              (JStr "AAAA") "image/png" world0).

Definition deepSeekOn (fetch : Request -> outcome Response) (rnd : nat -> Q)
  : option AnalysisResult :=
  resultOf (analyzeWithDeepSeek key fetch rnd JSONText.parse engineTypeError
                                (JStr "AAAA") "image/png" world0).

End Examples.

(** * The claims *)

Section Claims.

Import JSString Examples.

(** C1.  Neither analyser raises: each returns an object, whatever the
    network, the parser and the engine do.  When the provider call fails
    (rejected [fetch], or a status outside 200..299) the object is the
    mock object retagged ["mock-fallback"], with the error's message as
    [fallbackReason].  On every object an analyser or the mock analyser
    returns, [fallbackReason] is present exactly when the tag is
    ["mock-fallback"].  The handler, in turn, answers an upload that is
    a string, or missing, with 200 and such an object or with 400, never
    with 500.  For an upload of any kind a 500 comes from reading the
    upload only (a value without [includes] or [split]), never from an
    analyser. *)
Theorem analysers_absorb_failures :
  forall CLAUDE_KEY DEEPSEEK_KEY fetch Math_random JSON_parse TypeError
         base64Data mediaType w,
    (exists o w',
        analyzeWithClaude CLAUDE_KEY fetch Math_random JSON_parse TypeError
                          base64Data mediaType w
        = (Returns (length (heap w)), w')
        /\ deref (length (heap w)) w' = Some o
        /\ (fallbackReason o <> None
            <-> analysisMethod o = lit "mock-fallback")
        /\ match callFailure "Claude"
                 (fetch (claudeRequest CLAUDE_KEY base64Data mediaType)) with
           | Some e =>
               o = drawnMock Math_random w "mock-fallback"
                             (Some (message e))
           | None => True
           end)
    /\ (exists o w',
           analyzeWithDeepSeek DEEPSEEK_KEY fetch Math_random JSON_parse
                               TypeError base64Data mediaType w
           = (Returns (length (heap w)), w')
           /\ deref (length (heap w)) w' = Some o
           /\ (fallbackReason o <> None
               <-> analysisMethod o = lit "mock-fallback")
           /\ match callFailure "DeepSeek"
                    (fetch (deepSeekRequest DEEPSEEK_KEY base64Data
                                            mediaType)) with
              | Some e =>
                  o = drawnMock Math_random w "mock-fallback"
                                (Some (message e))
              | None => True
              end)
    /\ (exists o w',
           performMockAnalysis Math_random w
           = (Returns (length (heap w)), w')
           /\ deref (length (heap w)) w' = Some o
           /\ fallbackReason o = None
           /\ analysisMethod o = lit "mock")
    /\ (forall image : option jstring,
           match fst (analyze CLAUDE_KEY DEEPSEEK_KEY fetch Math_random
                              JSON_parse TypeError (option_map JStr image)
                              w) with
           | Json code o =>
               code = 200
               /\ (fallbackReason o <> None
                   <-> analysisMethod o = lit "mock-fallback")
           | Failure code _ _ => code = 400
           end)
    /\ (forall image : value,
           match fst (analyze CLAUDE_KEY DEEPSEEK_KEY fetch Math_random
                              JSON_parse TypeError image w) with
           | Json code o =>
               code = 200
               /\ (fallbackReason o <> None
                   <-> analysisMethod o = lit "mock-fallback")
           | Failure code _ details =>
               code = 400
               \/ (code = 500
                   /\ exists v e,
                        image = Some v
                        /\ splitDataUrl TypeError v w = (Throws e, w)
                        /\ details = message e)
           end).
Proof.
  intros. split; [|split; [|split; [|split]]].
  - rewrite analyzeWithClaude_run.
    set (req := claudeRequest _ _ _).
    set (r := outcomeOf _ _ _ _ _ _ _).
    exists (snd r), (snd (finished w req (fst r) (snd r))).
    split; [apply finished_returns|].
    split; [apply deref_finished|].
    split; [apply (produced_reason Math_random JSON_parse w (fst r)),
              outcomeOf_claude|].
    destruct (callFailure _ _) as [e|] eqn:E; [|exact I].
    subst r. now rewrite (callFailure_throws _ _ _ _ E).
  - rewrite analyzeWithDeepSeek_run.
    set (req := deepSeekRequest _ _ _).
    set (r := outcomeOf _ _ _ _ _ _ _).
    exists (snd r), (snd (finished w req (fst r) (snd r))).
    split; [apply finished_returns|].
    split; [apply deref_finished|].
    split; [apply (produced_reason Math_random JSON_parse w (fst r)),
              outcomeOf_deepSeek|].
    destruct (callFailure _ _) as [e|] eqn:E; [|exact I].
    subst r. now rewrite (callFailure_throws _ _ _ _ E).
  - rewrite performMockAnalysis_run. eexists. eexists.
    split; [reflexivity|]. split; [apply nth_error_snoc|].
    split; reflexivity.
  - intros [[|c rest]|].
    + reflexivity.
    + cbn [option_map]. rewrite analyze_run. cbn [fst].
      split; [reflexivity|].
      eapply (produced_reason Math_random JSON_parse w).
      apply served_produced.
    + reflexivity.
  - intros [v|]; [|now left].
    destruct (truthy (Some v)) eqn:Ht;
      [|rewrite analyze_rejects by assumption; now left].
    assert (Hs : (exists parts,
                     splitDataUrl TypeError v w = (Returns parts, w))
                 \/ (exists e, splitDataUrl TypeError v w = (Throws e, w))).
    { pose proof (splitDataUrl_cases TypeError v w) as Hc.
      destruct v; try (right; eexists; exact Hc).
      - left; eexists; exact Hc.
      - destruct (existsb isComma _);
          [right; eexists; exact Hc | left; eexists; exact Hc]. }
    destruct Hs as [[parts Hs]|[e Hs]].
    + rewrite (analyze_parts _ _ _ _ _ _ _ _ _ Ht Hs). cbn [fst].
      split; [reflexivity|].
      eapply (produced_reason Math_random JSON_parse w).
      apply servedParts_produced.
    + rewrite (analyze_fails _ _ _ _ _ _ _ _ _ Ht Hs). cbn [fst].
      right. split; [reflexivity|]. now exists v, e.
Qed.

(** C2.  The [confidence] of every result is an integer between 0 and
    100, and which one is fixed by what the provider answered.  When the
    call fails, and when no provider is called, it is
    [Math.floor(Math.random() * 21) + 75] of the second draw, computed on
    doubles: an integer between 75 and 95.  When the text of the reply
    parses to an object with a boolean [isOriginal], a number
    [confidence] and an array [observations], it is that number rounded
    and clamped, [Math.min(100, Math.max(0, Math.round(n)))]; for any
    other text it is 70.  A reply with confidence 150 gives exactly 100.
    Shown for both analysers, for [performMockAnalysis] and for the
    handler. *)
Theorem confidence_is_percentage :
  forall CLAUDE_KEY DEEPSEEK_KEY fetch Math_random JSON_parse TypeError,
    (forall n, JSMath.unitDouble (Math_random n)) ->
    let strict (n : number) :=
      JSMath.min (JSMath.ofZ 100)
                 (JSMath.max (JSMath.ofZ 0) (JSMath.round n)) in
    let mock (w : World) :=
      JSMath.plus
        (JSMath.floor (JSMath.times (Math_random (S (drawn w))) 21)) 75 in
    let byReply (reply : outcome jstring) (w : World) (o : AnalysisResult) :=
      percent (confidence o) 0 100
      /\ match reply with
         | Throws _ => confidence o = mock w /\ percent (confidence o) 75 95
         | Returns t =>
             match JSON_parse (extractJsonText t) with
             | Returns (JObj fields) =>
                 match assoc "isOriginal" fields, assoc "confidence" fields,
                       assoc "observations" fields with
                 | Some (JBool _), Some (JNum n), Some (JArr _) =>
                     confidence o = strict n
                 | _, _, _ => confidence o = JSMath.ofZ 70
                 end
             | _ => confidence o = JSMath.ofZ 70
             end
         end in
    let claudeReply base64Data mediaType :=
      providerText "Claude" (claudeText TypeError)
        (fetch (claudeRequest CLAUDE_KEY base64Data mediaType)) in
    let deepSeekReply base64Data mediaType :=
      providerText "DeepSeek" (deepSeekText TypeError)
        (fetch (deepSeekRequest DEEPSEEK_KEY base64Data mediaType)) in
    (forall base64Data mediaType w,
        exists o,
          resultOf (analyzeWithClaude CLAUDE_KEY fetch Math_random JSON_parse
                                      TypeError base64Data mediaType w)
          = Some o
          /\ byReply (claudeReply base64Data mediaType) w o)
    /\ (forall base64Data mediaType w,
           exists o,
             resultOf (analyzeWithDeepSeek DEEPSEEK_KEY fetch Math_random
                         JSON_parse TypeError base64Data mediaType w)
             = Some o
             /\ byReply (deepSeekReply base64Data mediaType) w o)
    /\ (forall w,
           exists o,
             resultOf (performMockAnalysis Math_random w) = Some o
             /\ confidence o = mock w
             /\ percent (confidence o) 75 95)
    /\ (forall c rest w,
           exists o w',
             analyze CLAUDE_KEY DEEPSEEK_KEY fetch Math_random JSON_parse
                     TypeError (Some (JStr (c :: rest))) w
             = (Json 200 o, w')
             /\ percent (confidence o) 0 100
             /\ let (base64Data, mediaType) := dataUrlParts (c :: rest) in
                if configured CLAUDE_KEY
                then byReply (claudeReply base64Data mediaType) w o
                else if configured DEEPSEEK_KEY
                     then byReply (deepSeekReply base64Data mediaType) w o
                     else confidence o = mock w
                          /\ percent (confidence o) 75 95)
    /\ option_map confidence
         (claudeOn (replying (claudeBody reply150)) Math_random)
       = Some (JSMath.ofZ 100).
Proof.
  intros CK DK fetch rnd parse tyErr Hr strict mock byReply claudeReply
         deepSeekReply.
  assert (Hm : forall w method reason,
             let o := drawnMock rnd w method reason in
             confidence o = mock w /\ percent (confidence o) 75 95)
    by (intros w method reason; apply drawnMock_confidence, Hr).
  assert (Hw : forall (o : AnalysisResult),
             percent (confidence o) 75 95 -> percent (confidence o) 0 100)
    by (intros o (z & Hz & Hb); exists z; split; [exact Hz | lia]).
  assert (HR : forall w req method heuristic reply,
             heuristic = claudeHeuristic \/ heuristic = deepSeekHeuristic ->
             byReply reply w (snd (outcomeOf rnd parse w req method heuristic
                                             reply))).
  { intros w req method heuristic reply Hh. unfold byReply, outcomeOf.
    destruct reply as [t|e]; cbn [snd].
    - apply settle_confidence, heuristic_confidence, Hh.
    - split; [apply Hw|]; apply Hm. }
  split; [|split; [|split; [|split]]].
  - intros b m w. rewrite analyzeWithClaude_run.
    set (req := claudeRequest _ _ _).
    set (r := outcomeOf _ _ _ _ _ _ _).
    exists (snd r). split.
    + rewrite finished_returns. apply deref_finished.
    + apply HR. now left.
  - intros b m w. rewrite analyzeWithDeepSeek_run.
    set (req := deepSeekRequest _ _ _).
    set (r := outcomeOf _ _ _ _ _ _ _).
    exists (snd r). split.
    + rewrite finished_returns. apply deref_finished.
    + apply HR. now right.
  - intro w. rewrite performMockAnalysis_run.
    exists (drawnMock rnd w "mock" None).
    split; [apply nth_error_snoc | apply Hm].
  - intros c rest w. rewrite analyze_run.
    unfold served, servedParts, selectProvider.
    destruct (dataUrlParts (c :: rest)) as [b m].
    destruct (configured CK); [|destruct (configured DK)]; cbn [fst snd].
    + eexists. eexists. split; [reflexivity|].
      split; [|apply HR; now left].
      refine (proj1 (HR w _ _ _ _ _)). now left.
    + eexists. eexists. split; [reflexivity|].
      split; [|apply HR; now right].
      refine (proj1 (HR w _ _ _ _ _)). now right.
    + eexists. eexists. split; [reflexivity|].
      split; [apply Hw|]; apply Hm.
  - reflexivity.
Qed.

Lemma confidence_is_percentage_witness :
  let rnd := draws (1 # 4) drawNear20 in
  (forall n, JSMath.unitDouble (rnd n))
  /\ option_map confidence (claudeOn (replying (claudeBody reply150)) rnd)
     = Some (JSMath.ofZ 100)
  /\ option_map confidence (claudeOn (unreachable "offline") rnd)
     = Some (JSMath.ofZ 95)
  /\ option_map confidence
       (claudeOn (replying (claudeBody replyFreeText)) rnd)
     = Some (JSMath.ofZ 70).
Proof.
  intro rnd.
  assert (Hr : forall n, JSMath.unitDouble (rnd n))
    by (apply draws_unit; [apply quarter_unit | apply drawNear20_unit]).
  split; [exact Hr|].
  split; [|split].
  - destruct (proj1 (confidence_is_percentage key None
                       (replying (claudeBody reply150)) rnd
                       JSONText.parse engineTypeError Hr)
                    (JStr "AAAA") (lit "image/png") world0)
      as (o & Ho & _ & Hc).
    unfold claudeOn. rewrite Ho. cbn [option_map]. f_equal.
    exact Hc.
  - destruct (proj1 (confidence_is_percentage key None
                       (unreachable "offline") rnd
                       JSONText.parse engineTypeError Hr)
                    (JStr "AAAA") (lit "image/png") world0)
      as (o & Ho & _ & Hc & _).
    unfold claudeOn. rewrite Ho. cbn [option_map]. f_equal.
    exact Hc.
  - destruct (proj1 (confidence_is_percentage key None
                       (replying (claudeBody replyFreeText)) rnd
                       JSONText.parse engineTypeError Hr)
                    (JStr "AAAA") (lit "image/png") world0)
      as (o & Ho & _ & Hc).
    unfold claudeOn. rewrite Ho. cbn [option_map]. f_equal.
    exact Hc.
Defined.

(** C3.  The strict path hands the reply's [observations] array over as
    [summary] after checking only that it is an array: a reply with an
    empty array gives a result tagged ["claude-api"] (or
    ["deepseek-api"]) whose summary is empty.  The heuristic path and
    the mock paths never give an empty summary. *)
Theorem strict_path_empty_summary :
  forall Math_random,
    option_map (fun o => (summary o, analysisMethod o))
      (claudeOn (replying (claudeBody replyNoObservations)) Math_random)
    = Some ([], lit "claude-api")
    /\ option_map (fun o => (summary o, analysisMethod o))
         (deepSeekOn (replying (deepSeekBody replyNoObservations))
                     Math_random)
       = Some ([], lit "deepseek-api")
    /\ (forall t, 1 <= length (summary (claudeHeuristic t)) <= 4)
    /\ (forall t, 1 <= length (summary (deepSeekHeuristic t)) <= 4)
    /\ (forall r1 r2 method reason,
           length (summary (mockObject r1 r2 method reason)) = 4).
Proof.
  intro rnd. repeat split; try reflexivity;
    try (apply heuristicSummary_length; reflexivity).
  intros. unfold mockObject; simpl.
  now destruct (negb (Qle_bool r1 (1 # 2))).
Qed.

(** The requests sent to a provider, oldest first. *)
Fixpoint requestsOf (events : list Event) : list Request :=
  match events with
  | [] => []
  | EFetch r :: rest => r :: requestsOf rest
  | _ :: rest => requestsOf rest
  end.

Lemma requestsOf_app xs ys :
  requestsOf (xs ++ ys) = requestsOf xs ++ requestsOf ys.
Proof.
  induction xs as [|[r|l|l f] xs IH]; simpl; [reflexivity| |exact IH..].
  now rewrite IH.
Qed.

Lemma log_finished w req path o :
  requestsOf (log (snd (finished w req path o)))
  = requestsOf (log w) ++ [req].
Proof.
  destruct path; unfold finished; simpl; now rewrite requestsOf_app.
Qed.

(** C4.  The provider is chosen from the keys alone, once per request,
    in the order Claude, DeepSeek, mock.  A request sends exactly one
    provider call (none without a key): with the Claude key configured
    the only call goes to Claude whatever the DeepSeek key is, and when
    that call fails the result is tagged ["mock-fallback"]; DeepSeek is
    not called and Claude is not called again. *)
Theorem one_provider_call_per_request :
  forall CLAUDE_KEY DEEPSEEK_KEY fetch Math_random JSON_parse TypeError
         c rest w,
    let image := c :: rest in
    let base64Data := fst (dataUrlParts image) in
    let mediaType := snd (dataUrlParts image) in
    let claude := claudeRequest CLAUDE_KEY base64Data mediaType in
    let deepSeek := deepSeekRequest DEEPSEEK_KEY base64Data mediaType in
    let absorbed (name : jstring) (req : Request) (o : AnalysisResult) :=
      match callFailure name (fetch req) with
      | Some e => analysisMethod o = lit "mock-fallback"
                  /\ fallbackReason o = Some (message e)
      | None => True
      end in
    exists o w',
      analyze CLAUDE_KEY DEEPSEEK_KEY fetch Math_random JSON_parse TypeError
              (Some (JStr image)) w
      = (Json 200 o, w')
      /\ url claude <> url deepSeek
      /\ if configured CLAUDE_KEY then
           requestsOf (log w') = requestsOf (log w) ++ [claude]
           /\ absorbed "Claude" claude o
         else if configured DEEPSEEK_KEY then
           requestsOf (log w') = requestsOf (log w) ++ [deepSeek]
           /\ absorbed "DeepSeek" deepSeek o
         else
           requestsOf (log w') = requestsOf (log w)
           /\ analysisMethod o = lit "mock".
Proof.
  intros CK DK fetch rnd parse tyErr c rest w image b m claude deepSeek
         absorbed.
  subst image. rewrite analyze_run.
  set (s := served _ _ _ _ _ _ _ _).
  exists (snd (fst s)), (snd s).
  split; [reflexivity|]. split; [discriminate|].
  subst s. unfold served, servedParts, selectProvider.
  rewrite (surjective_pairing (dataUrlParts (c :: rest))). fold b m.
  destruct (configured CK); [|destruct (configured DK)]; cbn [fst snd].
  - fold claude. split; [apply log_finished|].
    unfold absorbed.
    destruct (callFailure _ _) as [e|] eqn:E; [|exact I].
    rewrite (callFailure_throws _ _ _ _ E). now split.
  - fold deepSeek. split; [apply log_finished|].
    unfold absorbed.
    destruct (callFailure _ _) as [e|] eqn:E; [|exact I].
    rewrite (callFailure_throws _ _ _ _ E). now split.
  - simpl. rewrite requestsOf_app. simpl. now rewrite app_nil_r.
Qed.

(** C8.  Without a configured key every result of the handler comes
    from [performMockAnalysis]: tag ["mock"], no reason, the verdict
    [Math.random() > 0.5] of the first draw, the confidence
    [Math.floor(Math.random() * 21) + 75] of the second, computed on
    doubles and so an integer between 75 and 95, and the fixed four lines
    that go with the verdict.  No provider is called.  Every non-empty
    string upload is answered this way, and so is any other upload that
    is answered 200; a refused upload draws nothing. *)
Theorem unconfigured_serves_mock :
  forall CLAUDE_KEY DEEPSEEK_KEY fetch Math_random JSON_parse TypeError,
    configured CLAUDE_KEY = false ->
    configured DEEPSEEK_KEY = false ->
    (forall n, JSMath.unitDouble (Math_random n)) ->
    let handler := analyze CLAUDE_KEY DEEPSEEK_KEY fetch Math_random
                           JSON_parse TypeError in
    let isMock (w : World) (o : AnalysisResult) (w' : World) :=
      resultOf (performMockAnalysis Math_random w) = Some o
      /\ analysisMethod o = lit "mock"
      /\ fallbackReason o = None
      /\ isOriginal o = negb (Qle_bool (Math_random (drawn w)) (1 # 2))
      /\ confidence o
         = JSMath.plus
             (JSMath.floor (JSMath.times (Math_random (S (drawn w))) 21)) 75
      /\ percent (confidence o) 75 95
      /\ summary o = (if isOriginal o then authenticObservations
                      else generatedObservations)
      /\ length (summary o) = 4
      /\ drawn w' = S (S (drawn w))
      /\ requestsOf (log w') = requestsOf (log w) in
    (forall c rest w,
        exists o w',
          handler (Some (JStr (c :: rest))) w = (Json 200 o, w')
          /\ isMock w o w')
    /\ (forall image w,
           match handler image w with
           | (Json code o, w') => code = 200 /\ isMock w o w'
           | (Failure _ _ _, w') => w' = w
           end).
Proof.
  intros CK DK fetch rnd parse tyErr HC HD Hr handler isMock.
  assert (Hs : forall parts w,
             let s := servedParts CK DK fetch rnd parse tyErr parts w in
             isMock w (snd (fst s)) (snd s)).
  { intros [b m] w. unfold servedParts, selectProvider. rewrite HC, HD.
    cbn [fst snd]. unfold isMock.
    split; [rewrite performMockAnalysis_run; apply nth_error_snoc|].
    destruct (drawnMock_confidence rnd w "mock" None (Hr _)) as [Hc Hp].
    repeat split; try exact Hp.
    - cbn. now destruct (negb (Qle_bool (rnd (drawn w)) (1 # 2))).
    - cbn. rewrite requestsOf_app. cbn. now rewrite app_nil_r. }
  split.
  - intros c rest w. unfold handler. rewrite analyze_run.
    eexists. eexists. split; [reflexivity | apply Hs].
  - intros [v|] w; [|reflexivity].
    destruct (truthy (Some v)) eqn:Ht;
      [|unfold handler; now rewrite analyze_rejects].
    pose proof (splitDataUrl_cases tyErr v w) as Hc.
    unfold handler.
    destruct v;
      try (rewrite (analyze_fails _ _ _ _ _ _ _ _ _ Ht Hc); reflexivity).
    + rewrite (analyze_parts _ _ _ _ _ _ _ _ _ Ht Hc).
      split; [reflexivity | apply Hs].
    + destruct (existsb isComma _).
      * rewrite (analyze_fails _ _ _ _ _ _ _ _ _ Ht Hc); reflexivity.
      * rewrite (analyze_parts _ _ _ _ _ _ _ _ _ Ht Hc).
        split; [reflexivity | apply Hs].
Qed.

Lemma unconfigured_serves_mock_witness :
  exists o w',
    analyze None (Some []) (unreachable "offline") (draws (3 # 4) drawNear20)
            JSONText.parse engineTypeError
            (Some (JStr "data:image/png;base64,AAAA")) world0
    = (Json 200 o, w')
    /\ analysisMethod o = lit "mock"
    /\ isOriginal o = true
    /\ confidence o = JSMath.ofZ 95
    /\ summary o = authenticObservations.
Proof.
  destruct (proj1 (unconfigured_serves_mock None (Some [])
                     (unreachable "offline") (draws (3 # 4) drawNear20)
                     JSONText.parse engineTypeError eq_refl eq_refl
                     (draws_unit _ _ three_quarters_unit drawNear20_unit))
                  "d"%char (lit "ata:image/png;base64,AAAA") world0)
    as (o & w' & Ha & _ & Ht & _ & Hi & Hc & _ & Hs & _).
  exists o, w'. split; [exact Ha|]. split; [exact Ht|].
  split; [exact Hi|]. split; [exact Hc|].
  rewrite Hs. change (isOriginal o = true) in Hi. now rewrite Hi.
Defined.


Lemma strict_failure_heuristic JSON_parse TypeError method heuristic t w e :
  fst (parseStrict JSON_parse TypeError method t w) = Throws e ->
  settle JSON_parse method heuristic t = (Heuristic, heuristic t).
Proof.
  intro H. unfold settle.
  pose proof (parseStrict_run JSON_parse TypeError method t w) as R.
  destruct (JSON_parse (extractJsonText t)) as [parsed|e']; [|reflexivity].
  destruct (accepted method parsed) as [o|]; [|reflexivity].
  rewrite R in H. discriminate H.
Qed.

(** C5.  When the strict parser throws on the reply text, the analyser
    returns the heuristic object: confidence exactly 70, the tag
    ["claude-api-fallback"] (["deepseek-api-fallback"]), no reason, and
    the verdict of the keyword scan over the lowercased text.  For the
    free text of the example, which holds no JSON, the verdict is
    [false] and the confidence 70. *)
Theorem heuristic_on_parse_failure :
  forall CLAUDE_KEY DEEPSEEK_KEY fetch Math_random JSON_parse TypeError
         base64Data mediaType w t e,
    (providerText "Claude" (claudeText TypeError)
       (fetch (claudeRequest CLAUDE_KEY base64Data mediaType)) = Returns t ->
     fst (parseStrict JSON_parse TypeError "claude-api" t w) = Throws e ->
     exists o,
       resultOf (analyzeWithClaude CLAUDE_KEY fetch Math_random JSON_parse
                                   TypeError base64Data mediaType w)
       = Some o
       /\ confidence o = JSMath.ofZ 70
       /\ analysisMethod o = lit "claude-api-fallback"
       /\ fallbackReason o = None
       /\ isOriginal o
          = negb (includes (toLowerCase t) "ai-generated")
            && negb (includes (toLowerCase t) "artificial")
            && negb (includes (toLowerCase t) "generated")
            && negb (includes (toLowerCase t) "fake"))
    /\ (providerText "DeepSeek" (deepSeekText TypeError)
          (fetch (deepSeekRequest DEEPSEEK_KEY base64Data mediaType))
        = Returns t ->
        fst (parseStrict JSON_parse TypeError "deepseek-api" t w) = Throws e ->
        exists o,
          resultOf (analyzeWithDeepSeek DEEPSEEK_KEY fetch Math_random
                      JSON_parse TypeError base64Data mediaType w)
          = Some o
          /\ confidence o = JSMath.ofZ 70
          /\ analysisMethod o = lit "deepseek-api-fallback"
          /\ fallbackReason o = None
          /\ isOriginal o
             = negb (includes (toLowerCase t) "ai-generated")
               && negb (includes (toLowerCase t) "artificial")
               && negb (includes (toLowerCase t) "generated"))
    /\ JSONText.parse (extractJsonText replyFreeText)
       = Throws JSONText.syntaxError
    /\ option_map (fun o => (isOriginal o, confidence o, analysisMethod o))
         (claudeOn (replying (claudeBody replyFreeText)) Math_random)
       = Some (false, JSMath.ofZ 70, lit "claude-api-fallback")
    /\ option_map (fun o => (isOriginal o, confidence o, analysisMethod o))
         (deepSeekOn (replying (deepSeekBody replyFreeText)) Math_random)
       = Some (false, JSMath.ofZ 70, lit "deepseek-api-fallback").
Proof.
  intros CK DK fetch rnd parse tyErr b m w t e.
  split; [|split; [|repeat split]].
  - intros Ht Hs. exists (claudeHeuristic t).
    rewrite analyzeWithClaude_run, Ht. unfold outcomeOf.
    rewrite (strict_failure_heuristic _ _ _ _ _ _ _ Hs). cbn [fst snd].
    split; [apply resultOf_finished_heuristic|]. repeat split.
  - intros Ht Hs. exists (deepSeekHeuristic t).
    rewrite analyzeWithDeepSeek_run, Ht. unfold outcomeOf.
    rewrite (strict_failure_heuristic _ _ _ _ _ _ _ Hs). cbn [fst snd].
    split; [apply resultOf_finished_heuristic|]. repeat split.
Qed.

Lemma heuristic_on_parse_failure_witness :
  exists o,
    claudeOn (replying (claudeBody replyFreeText)) (draws (1 # 4) (3 # 4))
    = Some o
    /\ confidence o = JSMath.ofZ 70
    /\ isOriginal o = false.
Proof.
  destruct (heuristic_on_parse_failure key key
              (replying (claudeBody replyFreeText)) (draws (1 # 4) (3 # 4))
              JSONText.parse engineTypeError (JStr "AAAA") "image/png" world0
              replyFreeText JSONText.syntaxError) as (HC & _).
  destruct (HC eq_refl eq_refl) as (o & Ho & Hc & _ & _ & Hi).
  exists o. split; [exact Ho|]. split; [exact Hc|].
  rewrite Hi. reflexivity.
Defined.

(** C10.  The two heuristic extractors disagree: on a text whose lowercase
    form contains ["fake"] and none of ["ai-generated"], ["artificial"],
    ["generated"], Claude's extractor says not original and DeepSeek's
    says original.  The reply "The picture looks fake to me." is such a
    text, and it reaches the extractor of either analyser. *)
Theorem heuristics_disagree_on_fake :
  forall t w,
    includes (toLowerCase t) "fake" = true ->
    includes (toLowerCase t) "ai-generated" = false ->
    includes (toLowerCase t) "artificial" = false ->
    includes (toLowerCase t) "generated" = false ->
    (exists oc od,
        claudeFallback t w = allocated w oc
        /\ deepSeekFallback t w = allocated w od
        /\ isOriginal oc = false
        /\ isOriginal od = true)
    /\ (forall Math_random,
           option_map (fun o => (isOriginal o, analysisMethod o))
             (claudeOn (replying (claudeBody replyFake)) Math_random)
           = Some (false, lit "claude-api-fallback")
           /\ option_map (fun o => (isOriginal o, analysisMethod o))
                (deepSeekOn (replying (deepSeekBody replyFake)) Math_random)
              = Some (true, lit "deepseek-api-fallback")).
Proof.
  intros t w Hf Ha Hr Hg. split.
  - exists (claudeHeuristic t), (deepSeekHeuristic t).
    split; [apply claudeFallback_run|].
    split; [apply deepSeekFallback_run|].
    cbn [isOriginal claudeHeuristic deepSeekHeuristic].
    rewrite Hf, Ha, Hr, Hg. split; reflexivity.
  - intro rnd. split; reflexivity.
Qed.

Lemma heuristics_disagree_on_fake_witness :
  exists oc od,
    claudeFallback replyFake world0 = allocated world0 oc
    /\ deepSeekFallback replyFake world0 = allocated world0 od
    /\ isOriginal oc = false
    /\ isOriginal od = true.
Proof.
  exact (proj1 (heuristics_disagree_on_fake replyFake world0
                  eq_refl eq_refl eq_refl eq_refl)).
Defined.

Lemma uptoLast_snoc c s : uptoLast c (s ++ [c]) = Some (s ++ [c]).
Proof.
  induction s as [|x s IH]; simpl.
  - now rewrite Ascii.eqb_refl.
  - now rewrite IH.
Qed.

Lemma matchBraces_object s :
  matchBraces ("{"%char :: s ++ ["}"%char])
  = Some ("{"%char :: s ++ ["}"%char]).
Proof. cbn [matchBraces]. now rewrite Ascii.eqb_refl, uptoLast_snoc. Qed.

Lemma claudeText_body TypeError t :
  evalIn (claudeText TypeError (claudeBody t)) = Returns t.
Proof. now destruct t. Qed.

Lemma deepSeekText_body TypeError t :
  evalIn (deepSeekText TypeError (deepSeekBody t)) = Returns t.
Proof. now destruct t. Qed.

(** C7 (as amended).  A JSON object text (white space, an opening brace,
    a closing brace, white space) wrapped in a code fence, with or without
    the [json] tag, is handed to [JSON.parse] as the same text as the
    object on its own, so the strict parser does the same on both; when
    the strict parser accepts the object, either analyser returns the same
    result for the fenced and for the bare reply.  The text parsed is not
    always the object: it is the object with every fence inside it
    removed, also inside its strings, and the object itself only when it
    holds no triple backtick. *)
Theorem fenced_reply_parses_alike :
  forall JSON_parse TypeError lang ws1 mid ws2,
    FenceFacts.spaces ws1 = true ->
    FenceFacts.spaces ws2 = true ->
    lang = [] \/ lang = lit "json" ->
    let J := FenceFacts.objectText ws1 mid ws2 in
    let F := FenceFacts.fenced lang J in
    let object (s : jstring) := "{"%char :: s ++ ["}"%char] in
    extractJsonText F = extractJsonText J
    /\ extractJsonText J = object (StrictText.stripFences mid)
    /\ (includes (object mid) "```" = false -> extractJsonText F = object mid)
    /\ (forall method w,
           parseStrict JSON_parse TypeError method F w
           = parseStrict JSON_parse TypeError method J w)
    /\ (forall parsed o key Math_random base64Data mediaType w,
           JSON_parse (extractJsonText J) = Returns parsed ->
           accepted "claude-api" parsed = Some o ->
           resultOf (analyzeWithClaude key (replying (claudeBody F))
                       Math_random JSON_parse TypeError base64Data mediaType w)
           = Some o
           /\ resultOf (analyzeWithClaude key (replying (claudeBody J))
                          Math_random JSON_parse TypeError base64Data
                          mediaType w)
              = Some o)
    /\ (forall parsed o key Math_random base64Data mediaType w,
           JSON_parse (extractJsonText J) = Returns parsed ->
           accepted "deepseek-api" parsed = Some o ->
           resultOf (analyzeWithDeepSeek key (replying (deepSeekBody F))
                       Math_random JSON_parse TypeError base64Data mediaType w)
           = Some o
           /\ resultOf (analyzeWithDeepSeek key (replying (deepSeekBody J))
                          Math_random JSON_parse TypeError base64Data
                          mediaType w)
              = Some o).
Proof.
  intros parse tyErr lang ws1 mid ws2 H1 H2 Hlang J F object.
  assert (HF : extractJsonText F = extractJsonText J)
    by now apply StrictText.extractJsonText_fenced.
  assert (HJ : extractJsonText J = object (StrictText.stripFences mid)).
  { unfold extractJsonText.
    pose proof (StrictText.prepared_object ws1 mid ws2 H1 H2) as Hu.
    cbv zeta in Hu. fold (StrictText.stripFences (trim J)).
    unfold J. rewrite Hu. now rewrite matchBraces_object. }
  split; [exact HF|]. split; [exact HJ|].
  split; [|split; [|split]].
  - intro Hn. rewrite HF, HJ. unfold object in *.
    rewrite <- StrictText.stripFences_braces.
    now apply StrictText.stripFences_nofence.
  - intros method w. unfold parseStrict. now rewrite HF.
  - intros parsed o key rnd b m w Hp Ha.
    rewrite !analyzeWithClaude_run. unfold providerText, replying.
    cbn [ok status body_json Nat.leb Nat.ltb andb].
    rewrite !claudeText_body. unfold outcomeOf, settle.
    rewrite HF, Hp, Ha. cbn [fst snd].
    split; unfold resultOf, finished, deref; simpl; apply nth_error_snoc.
  - intros parsed o key rnd b m w Hp Ha.
    rewrite !analyzeWithDeepSeek_run. unfold providerText, replying.
    cbn [ok status body_json Nat.leb Nat.ltb andb].
    rewrite !deepSeekText_body. unfold outcomeOf, settle.
    rewrite HF, Hp, Ha. cbn [fst snd].
    split; unfold resultOf, finished, deref; simpl; apply nth_error_snoc.
Qed.

Lemma fenced_reply_parses_alike_witness :
  FenceFacts.objectText [] fields150 [] = reply150
  /\ exists o,
      claudeOn (replying (claudeBody fenced150)) (draws (1 # 4) (3 # 4))
      = Some o
      /\ claudeOn (replying (claudeBody reply150)) (draws (1 # 4) (3 # 4))
         = Some o
      /\ confidence o = JSMath.ofZ 100
      /\ analysisMethod o = lit "claude-api".
Proof.
  split; [reflexivity|].
  destruct (fenced_reply_parses_alike JSONText.parse engineTypeError
              (lit "json") [] fields150 [] eq_refl eq_refl
              (or_intror eq_refl))
    as (_ & _ & _ & _ & HC & _).
  set (parsed := match JSONText.parse reply150 with
                 | Returns v => v
                 | Throws _ => JNull
                 end).
  set (o := mkResult true (JSMath.ofZ 100)
                     [JStr "a"; JStr "b"; JStr "c"; JStr "d"]
                     "claude-api" None).
  assert (Hp : JSONText.parse
                 (extractJsonText (FenceFacts.objectText [] fields150 []))
               = Returns parsed)
    by (vm_compute; reflexivity).
  assert (Ha : accepted "claude-api" parsed = Some o)
    by (vm_compute; reflexivity).
  destruct (HC parsed o key (draws (1 # 4) (3 # 4)) (JStr "AAAA")
               (lit "image/png") world0 Hp Ha) as [HF HJ].
  exists o. repeat split; assumption.
Defined.

(** C7, the original reading refuted: the steps before [JSON.parse] do
    change the parsed object.  The reply below is valid JSON with the one
    observation [see ```x``` here]; the strict path of either analyser,
    for the bare and for the fenced reply, returns the observation
    [see x here]. *)
Lemma fence_inside_string_counterexample :
  let rnd := draws (1 # 4) (3 # 4) in
  let stripped := Some (lit "claude-api", [JStr "see x here"]) in
  let read (o : option AnalysisResult) :=
    option_map (fun r => (analysisMethod r, summary r)) o in
  JSONText.parse replyFenceInside
  = Returns (JObj [(lit "isOriginal", JBool true);
                   (lit "confidence", JNum (JSMath.ofZ 90));
                   (lit "observations", JArr [JStr "see ```x``` here"])])
  /\ extractJsonText replyFenceInside <> replyFenceInside
  /\ read (claudeOn (replying (claudeBody replyFenceInside)) rnd) = stripped
  /\ read (claudeOn (replying (claudeBody
                                 (FenceFacts.fenced (lit "json")
                                                    replyFenceInside))) rnd)
     = stripped
  /\ read (deepSeekOn (replying (deepSeekBody replyFenceInside)) rnd)
     = Some (lit "deepseek-api", [JStr "see x here"]).
Proof.
  cbv zeta. split; [vm_compute; reflexivity|].
  split; [vm_compute; discriminate|].
  repeat split; vm_compute; reflexivity.
Qed.

(** C6 (as amended).  The heuristic tier does not pad.  Its summary is
    the extracted observations, at most four and left as they are, when at
    least one line qualifies, and the provider's fixed set of four lines
    when none does; so it has between one and four entries. *)
Theorem heuristic_summary_not_padded :
  forall t w,
    exists oc od,
      claudeFallback t w = allocated w oc
      /\ deepSeekFallback t w = allocated w od
      /\ summary oc = match extractObservations t with
                      | [] => claudeDefaults
                      | obs => map JStr obs
                      end
      /\ summary od = match extractObservations t with
                      | [] => deepSeekDefaults
                      | obs => map JStr obs
                      end
      /\ length (extractObservations t) <= 4
      /\ length claudeDefaults = 4
      /\ length deepSeekDefaults = 4
      /\ 1 <= length (summary oc) <= 4
      /\ 1 <= length (summary od) <= 4.
Proof.
  intros t w. exists (claudeHeuristic t), (deepSeekHeuristic t).
  split; [apply claudeFallback_run|].
  split; [apply deepSeekFallback_run|].
  cbn [summary claudeHeuristic deepSeekHeuristic]. unfold heuristicSummary.
  split; [now destruct (extractObservations t)|].
  split; [now destruct (extractObservations t)|].
  split; [apply extractObservations_length|].
  split; [reflexivity|]. split; [reflexivity|].
  split; apply heuristicSummary_length; reflexivity.
Qed.

(** C6, the counterexample: the free-text reply yields one observation,
    and the result carries that single line, not four. *)
Lemma summary_padding_counterexample :
  exists o,
    claudeOn (replying (claudeBody replyFreeText)) (draws (1 # 4) (3 # 4))
    = Some o
    /\ analysisMethod o = lit "claude-api-fallback"
    /\ length (extractObservations replyFreeText) = 1
    /\ summary o = [JStr replyFreeText]
    /\ length (summary o) <> 4.
Proof.
  eexists. split; [reflexivity|].
  repeat split. discriminate.
Qed.

(** The assignments an analyser makes to its object after building it. *)
Definition writes (path : Path) (l : loc) : list Event :=
  match path with
  | MockFallback => [ESet l FAnalysisMethod; ESet l FFallbackReason]
  | _ => []
  end.

Lemma finished_shape w req path o :
  heap (snd (finished w req path o)) = heap w ++ [o]
  /\ log (snd (finished w req path o))
     = log w ++ EFetch req :: ENew (length (heap w))
             :: writes path (length (heap w)).
Proof. destruct path; split; reflexivity. Qed.

(** C9 (as amended).  A request builds exactly one result object and
    leaves every older object as it was.  The strict, heuristic and mock
    results are never written after the object literal that builds them.
    On the catch-all path the analyser assigns [analysisMethod] and
    [fallbackReason] to the object [performMockAnalysis] returned, before
    it returns that object itself; nothing is written after an analyser
    has returned, and the handler replies with the object as it is then. *)
Theorem results_written_only_by_catch_all :
  forall CLAUDE_KEY DEEPSEEK_KEY fetch Math_random JSON_parse TypeError,
    (forall base64Data mediaType w,
        exists path o w',
          analyzeWithClaude CLAUDE_KEY fetch Math_random JSON_parse TypeError
                            base64Data mediaType w
          = (Returns (length (heap w)), w')
          /\ heap w' = heap w ++ [o]
          /\ log w' = log w
                      ++ EFetch (claudeRequest CLAUDE_KEY base64Data mediaType)
                      :: ENew (length (heap w))
                      :: writes path (length (heap w))
          /\ (path = MockFallback
              <-> analysisMethod o = lit "mock-fallback"))
    /\ (forall base64Data mediaType w,
           exists path o w',
             analyzeWithDeepSeek DEEPSEEK_KEY fetch Math_random JSON_parse
                                 TypeError base64Data mediaType w
             = (Returns (length (heap w)), w')
             /\ heap w' = heap w ++ [o]
             /\ log w' = log w
                         ++ EFetch (deepSeekRequest DEEPSEEK_KEY base64Data
                                                    mediaType)
                         :: ENew (length (heap w))
                         :: writes path (length (heap w))
             /\ (path = MockFallback
                 <-> analysisMethod o = lit "mock-fallback"))
    /\ (forall c rest w,
           exists path o w' sent,
             analyze CLAUDE_KEY DEEPSEEK_KEY fetch Math_random JSON_parse
                     TypeError (Some (JStr (c :: rest))) w
             = (Json 200 o, w')
             /\ heap w' = heap w ++ [o]
             /\ log w' = log w ++ map EFetch sent
                         ++ ENew (length (heap w))
                         :: writes path (length (heap w))
             /\ (path = MockFallback
                 <-> analysisMethod o = lit "mock-fallback")).
Proof.
  intros CK DK fetch rnd parse tyErr. split; [|split].
  - intros b m w. rewrite analyzeWithClaude_run.
    set (req := claudeRequest _ _ _). set (r := outcomeOf _ _ _ _ _ _ _).
    exists (fst r), (snd r), (snd (finished w req (fst r) (snd r))).
    destruct (finished_shape w req (fst r) (snd r)) as [Hh Hl].
    split; [apply finished_returns|]. split; [exact Hh|].
    split; [exact Hl|].
    apply (produced_reason rnd parse w), outcomeOf_claude.
  - intros b m w. rewrite analyzeWithDeepSeek_run.
    set (req := deepSeekRequest _ _ _). set (r := outcomeOf _ _ _ _ _ _ _).
    exists (fst r), (snd r), (snd (finished w req (fst r) (snd r))).
    destruct (finished_shape w req (fst r) (snd r)) as [Hh Hl].
    split; [apply finished_returns|]. split; [exact Hh|].
    split; [exact Hl|].
    apply (produced_reason rnd parse w), outcomeOf_deepSeek.
  - intros c rest w. rewrite analyze_run.
    pose proof (served_produced rnd parse CK DK fetch tyErr (c :: rest) w)
      as Hp. cbv zeta in Hp. apply produced_reason in Hp as [_ Hp].
    revert Hp. unfold served, servedParts, selectProvider.
    destruct (dataUrlParts (c :: rest)) as [b m].
    destruct (configured CK); [|destruct (configured DK)];
      cbn [fst snd]; intro Hp.
    + set (req := claudeRequest _ _ _) in *.
      set (r := outcomeOf _ _ _ _ _ _ _) in *.
      destruct (finished_shape w req (fst r) (snd r)) as [Hh Hl].
      exists (fst r), (snd r), (snd (finished w req (fst r) (snd r))), [req].
      repeat split; try assumption; apply Hp.
    + set (req := deepSeekRequest _ _ _) in *.
      set (r := outcomeOf _ _ _ _ _ _ _) in *.
      destruct (finished_shape w req (fst r) (snd r)) as [Hh Hl].
      exists (fst r), (snd r), (snd (finished w req (fst r) (snd r))), [req].
      repeat split; try assumption; apply Hp.
    + eexists Mock, _, _, []. repeat split; try discriminate.
Qed.

(** C9, the counterexample: when the Claude call is refused, the object
    [performMockAnalysis] returned, tagged ["mock"] and without a reason,
    is the object the analyser returns, now tagged ["mock-fallback"] and
    with a reason: it was assigned to twice after it had been returned by
    the function that built it. *)
Lemma mock_result_mutated_counterexample :
  exists o1 o2 wm w2,
    performMockAnalysis (draws (1 # 4) (3 # 4))
      (mkWorld [] 0 [EFetch (claudeRequest key (JStr "AAAA") "image/png")])
    = (Returns 0, wm)
    /\ deref 0 wm = Some o1
    /\ analyzeWithClaude key (unreachable "ECONNREFUSED")
         (draws (1 # 4) (3 # 4)) JSONText.parse engineTypeError
         (JStr "AAAA") "image/png" world0
       = (Returns 0, w2)
    /\ deref 0 w2 = Some o2
    /\ log w2 = log wm ++ [ESet 0 FAnalysisMethod; ESet 0 FFallbackReason]
    /\ analysisMethod o1 = lit "mock"
    /\ fallbackReason o1 = None
    /\ analysisMethod o2 = lit "mock-fallback"
    /\ fallbackReason o2 = Some (lit "ECONNREFUSED")
    /\ o1 <> o2.
Proof.
  exists (mockObject (1 # 4) (3 # 4) "mock" None),
         (mockObject (1 # 4) (3 # 4) "mock-fallback"
                     (Some (lit "ECONNREFUSED"))),
         (mkWorld [mockObject (1 # 4) (3 # 4) "mock" None] 2
                  [EFetch (claudeRequest key (JStr "AAAA") "image/png"); ENew 0]),
         (mkWorld [mockObject (1 # 4) (3 # 4) "mock-fallback"
                              (Some (lit "ECONNREFUSED"))] 2
                  [EFetch (claudeRequest key (JStr "AAAA") "image/png"); ENew 0;
                   ESet 0 FAnalysisMethod; ESet 0 FFallbackReason]).
  repeat split; try reflexivity.
  intro H. apply (f_equal fallbackReason) in H. discriminate H.
Qed.

End Claims.

(** * Further properties of the pipeline *)

(** ** Text around the object of a reply *)

Module SpanFacts.

Import JSString ReplaceFacts FenceFacts TrimFacts StrictText.

Definition without (c : ascii) (s : jstring) : bool :=
  forallb (fun x => negb (Ascii.eqb x c)) s.

Lemma trimStart_before c pre r :
  isWhiteSpace c = false ->
  trimStart (pre ++ c :: r) = trimStart pre ++ c :: r.
Proof.
  intro Hc. induction pre as [|x pre IH]; simpl.
  - now rewrite Hc.
  - destruct (isWhiteSpace x); [exact IH | reflexivity].
Qed.

Lemma trimEnd_after c s suf :
  isWhiteSpace c = false ->
  trimEnd (s ++ c :: suf) = s ++ c :: trimEnd suf.
Proof.
  intro Hc. induction s as [|x s IH]; cbn [app trimEnd].
  - destruct (trimEnd suf); [now rewrite Hc | reflexivity].
  - rewrite IH. now destruct s.
Qed.

Lemma trim_span pre a mid b suf :
  isWhiteSpace a = false -> isWhiteSpace b = false ->
  trim (pre ++ a :: mid ++ b :: suf)
  = trimStart pre ++ a :: mid ++ b :: trimEnd suf.
Proof.
  intros Ha Hb. unfold trim. rewrite trimStart_before by exact Ha.
  replace (trimStart pre ++ a :: mid ++ b :: suf)
    with ((trimStart pre ++ a :: mid) ++ b :: suf)
    by now rewrite <- app_assoc.
  rewrite trimEnd_after by exact Hb. now rewrite <- app_assoc.
Qed.

Lemma forallb_trimStart f s :
  forallb f s = true -> forallb f (trimStart s) = true.
Proof.
  induction s as [|x s IH]; simpl; [easy|].
  intro H. destruct (isWhiteSpace x); [|exact H].
  apply andb_true_iff in H as [_ H]. now apply IH.
Qed.

Lemma forallb_trimEnd f s :
  forallb f s = true -> forallb f (trimEnd s) = true.
Proof.
  induction s as [|x s IH]; simpl; [easy|].
  intro H. apply andb_true_iff in H as [Hx H]. specialize (IH H).
  destruct (trimEnd s) as [|y r].
  - destruct (isWhiteSpace x); simpl; [reflexivity | now rewrite Hx].
  - simpl in *. now rewrite Hx, IH.
Qed.

Lemma forallb_replaceFrom f m k s :
  forallb f s = true -> forallb f (replaceFrom m k s) = true.
Proof.
  revert k. induction s as [|x s IH]; intros k H; [reflexivity|].
  simpl in H. apply andb_true_iff in H as [Hx H].
  cbn [replaceFrom]. destruct k as [|k]; [|now apply IH].
  destruct (m (x :: s)) as [[|n]|]; simpl; rewrite ?Hx; now apply IH.
Qed.

Lemma forallb_stripFences f s :
  forallb f s = true -> forallb f (stripFences s) = true.
Proof.
  intro H. unfold stripFences, removeAll. now apply forallb_replaceFrom, forallb_replaceFrom.
Qed.

Lemma uptoLast_without c s : without c s = true -> uptoLast c s = None.
Proof.
  induction s as [|x s IH]; simpl; [reflexivity|].
  intro H. apply andb_true_iff in H as [Hx H]. rewrite (IH H).
  apply negb_true_iff in Hx. now rewrite Hx.
Qed.

Lemma uptoLast_last c m s :
  without c s = true -> uptoLast c (m ++ c :: s) = Some (m ++ [c]).
Proof.
  intro H. induction m as [|x m IH]; simpl.
  - now rewrite (uptoLast_without c s H), Ascii.eqb_refl.
  - now rewrite IH.
Qed.

Lemma matchBraces_span pre mid suf :
  without "{"%char pre = true -> without "}"%char suf = true ->
  matchBraces (pre ++ "{"%char :: mid ++ "}"%char :: suf)
  = Some ("{"%char :: mid ++ ["}"%char]).
Proof.
  intros Hp Hs. induction pre as [|x pre IH]; simpl.
  - now rewrite uptoLast_last.
  - simpl in Hp. apply andb_true_iff in Hp as [Hx Hp].
    apply negb_true_iff in Hx. rewrite Hx. now apply IH.
Qed.

Lemma startsWith_app p a b :
  startsWith p a = true -> startsWith p (a ++ b) = true.
Proof.
  unfold startsWith. revert a.
  induction p as [|x p IH]; intros [|y a]; simpl; try easy.
  intro H. apply andb_true_iff in H as [Hx H]. now rewrite Hx, IH.
Qed.

Lemma includes_app_l a b p :
  includes a p = true -> includes (a ++ b) p = true.
Proof.
  induction a as [|x a IH]; cbn [includes app].
  - rewrite orb_false_r. intro H.
    apply (startsWith_app p [] b) in H. simpl in H.
    destruct b; cbn [includes]; now rewrite H.
  - intro H. apply orb_true_iff in H as [H|H].
    + apply (startsWith_app p (x :: a) b) in H. simpl in H. now rewrite H.
    + rewrite (IH H). apply orb_true_r.
Qed.

Lemma includes_app_r a b p :
  includes b p = true -> includes (a ++ b) p = true.
Proof.
  intro H. induction a as [|x a IH]; [exact H|].
  cbn [includes app]. rewrite IH. apply orb_true_r.
Qed.

Lemma stripFences_span a m b :
  stripFences (a ++ "{"%char :: m ++ "}"%char :: b)
  = stripFences a ++ "{"%char :: stripFences m ++ "}"%char :: stripFences b.
Proof.
  unfold stripFences.
  rewrite brace_split_fenceJson by auto.
  rewrite brace_split_fenceJson by auto.
  rewrite brace_split_fence by auto.
  rewrite brace_split_fence by auto.
  reflexivity.
Qed.

(** Whatever stands before the first opening brace and after the last
    closing brace never reaches [JSON.parse]. *)
Lemma extractJsonText_span pre mid suf :
  without "{"%char pre = true -> without "}"%char suf = true ->
  extractJsonText (pre ++ "{"%char :: mid ++ "}"%char :: suf)
  = "{"%char :: stripFences mid ++ ["}"%char].
Proof.
  intros Hp Hs. unfold extractJsonText.
  rewrite trim_span by reflexivity.
  set (pre' := trimStart pre). set (suf' := trimEnd suf).
  assert (Hp' : without "{"%char pre' = true) by now apply forallb_trimStart.
  assert (Hs' : without "}"%char suf' = true) by now apply forallb_trimEnd.
  destruct (includes _ _) eqn:E.
  - fold (stripFences (pre' ++ "{"%char :: mid ++ "}"%char :: suf')).
    rewrite stripFences_span, trim_span by reflexivity.
    unfold without in *.
    rewrite matchBraces_span;
      [ reflexivity
      | apply forallb_trimStart, forallb_stripFences; exact Hp'
      | apply forallb_trimEnd, forallb_stripFences; exact Hs' ].
  - rewrite matchBraces_span by assumption.
    rewrite stripFences_nofence; [reflexivity|].
    destruct (includes mid (lit "```")) eqn:Em; [|reflexivity].
    rewrite <- E. symmetry.
    apply includes_app_r. apply (includes_app_r ["{"%char]).
    now apply includes_app_l.
Qed.

End SpanFacts.

Section Coverage.

Import JSString Examples.

(** X1.  The strict parser reads only the span from the first opening
    brace to the last closing brace of the reply.  For a reply that holds
    an object with any text before it that has no opening brace and any
    text after it that has no closing brace (prose, a fence with any
    language tag), the text handed to [JSON.parse] is the object with the
    fences inside it removed, so the strict parser does exactly what it
    does on the object alone. *)
Theorem text_around_object_is_discarded :
  forall JSON_parse TypeError method pre mid suf w,
    SpanFacts.without "{"%char pre = true ->
    SpanFacts.without "}"%char suf = true ->
    let object := "{"%char :: mid ++ ["}"%char] in
    extractJsonText (pre ++ object ++ suf)
    = "{"%char :: StrictText.stripFences mid ++ ["}"%char]
    /\ extractJsonText (pre ++ object ++ suf) = extractJsonText object
    /\ parseStrict JSON_parse TypeError method (pre ++ object ++ suf) w
       = parseStrict JSON_parse TypeError method object w
    /\ (includes mid "```" = false ->
        extractJsonText (pre ++ object ++ suf) = object).
Proof.
  intros parse tyErr method pre mid suf w Hp Hs object.
  assert (Hd : extractJsonText (pre ++ object ++ suf)
               = "{"%char :: StrictText.stripFences mid ++ ["}"%char]).
  { unfold object. cbn [app]. rewrite <- app_assoc. cbn [app].
    now apply SpanFacts.extractJsonText_span. }
  assert (Ho : extractJsonText object
               = "{"%char :: StrictText.stripFences mid ++ ["}"%char]).
  { unfold object.
    change ("{"%char :: mid ++ ["}"%char])
      with ([] ++ "{"%char :: mid ++ "}"%char :: []).
    now apply SpanFacts.extractJsonText_span. }
  split; [exact Hd|]. split; [congruence|].
  split; [unfold parseStrict; now rewrite Hd, Ho|].
  intro Hn. rewrite Hd. unfold object.
  now rewrite StrictText.stripFences_nofence.
Qed.

Lemma text_around_object_is_discarded_witness :
  extractJsonText
    (lit "Here is my verdict: "
     ++ ("{"%char :: fields150 ++ ["}"%char]) ++ lit " Hope this helps.")
  = reply150.
Proof.
  destruct (text_around_object_is_discarded JSONText.parse engineTypeError
              (lit "claude-api") (lit "Here is my verdict: ") fields150
              (lit " Hope this helps.") world0 eq_refl eq_refl)
    as (_ & _ & _ & H).
  exact (H eq_refl).
Defined.

(** *** The data URL *)

Lemma split_before sep h r :
  SpanFacts.without sep h = true ->
  split sep (h ++ sep :: r) = h :: split sep r.
Proof.
  induction h as [|x h IH]; simpl.
  - now rewrite Ascii.eqb_refl.
  - intro H. apply andb_true_iff in H as [Hx H].
    apply negb_true_iff in Hx. now rewrite Hx, (IH H).
Qed.

Lemma split_whole sep d :
  SpanFacts.without sep d = true -> split sep d = [d].
Proof.
  induction d as [|x d IH]; simpl; [reflexivity|].
  intro H. apply andb_true_iff in H as [Hx H].
  apply negb_true_iff in Hx. now rewrite Hx, (IH H).
Qed.

Lemma includes_unit_without sep d :
  SpanFacts.without sep d = true -> includes d [sep] = false.
Proof.
  induction d as [|x d IH]; simpl; [reflexivity|].
  intro H. apply andb_true_iff in H as [Hx H].
  apply negb_true_iff in Hx. unfold startsWith. simpl.
  now rewrite Ascii.eqb_sym, Hx, (IH H).
Qed.

Lemma includes_unit_at sep h r : includes (h ++ sep :: r) [sep] = true.
Proof.
  apply SpanFacts.includes_app_r. cbn [includes]. unfold startsWith. simpl.
  now rewrite Ascii.eqb_refl.
Qed.

Lemma takeWhile_all f s : forallb f (takeWhile f s) = true.
Proof.
  induction s as [|x s IH]; simpl; [reflexivity|].
  destruct (f x) eqn:E; simpl; [now rewrite E | reflexivity].
Qed.

(** The media type read from a header: [image/] and a run of letters. *)
Definition lettersType (m : jstring) : Prop :=
  exists letters,
    m = lit "image/" ++ letters
    /\ letters <> []
    /\ forallb isAsciiLetter letters = true.

Lemma mimeAt_shape s m : mimeAt s = Some m -> lettersType m.
Proof.
  unfold mimeAt. destruct (startsWith _ s); [|discriminate].
  pose proof (takeWhile_all isAsciiLetter (skipn 11 s)) as Hall.
  destruct (takeWhile isAsciiLetter (skipn 11 s)) as [|l ls]; [discriminate|].
  destruct (dropWhile isAsciiLetter (skipn 11 s)) as [|c r]; [discriminate|].
  destruct (Ascii.eqb c ";"%char); [|discriminate].
  intro H. injection H as <-. exists (l :: ls). now repeat split.
Qed.

Lemma matchMime_shape s m : matchMime s = Some m -> lettersType m.
Proof.
  induction s as [|x s IH]; cbn [matchMime].
  - destruct (mimeAt []) eqn:E; [|discriminate].
    intro H. injection H as <-. now apply (mimeAt_shape []).
  - destruct (mimeAt (x :: s)) eqn:E.
    + intro H. injection H as <-. now apply (mimeAt_shape (x :: s)).
    + exact IH.
Qed.

(** X2.  How the upload is read.  A string is always read: without a
    comma it is passed on whole with the type [image/jpeg]; otherwise the
    payload is the text between the first comma and the second (or the
    end), what follows a second comma is dropped, and the media type comes
    from the text before the first comma: always [image/jpeg] or [image/]
    followed by letters only.  An upload that is not a string is not
    refused: the value [true], a number other than zero and an object have
    no [includes] to call, and an array with an element [","] has no
    [split]; the handler answers these with 500 and the message of that
    error, before any provider is called or any number drawn.  An array
    without such an element is passed on whole, as [image/jpeg], and is
    answered 200.  The values [null], [false], [0] and the empty string
    are answered 400. *)
Theorem data_url_is_cut_at_commas :
  forall CLAUDE_KEY DEEPSEEK_KEY fetch Math_random JSON_parse TypeError
         header payload rest w,
    SpanFacts.without ","%char header = true ->
    SpanFacts.without ","%char payload = true ->
    let mediaType := match matchMime header with
                     | Some m => m
                     | None => lit "image/jpeg"
                     end in
    let handler := analyze CLAUDE_KEY DEEPSEEK_KEY fetch Math_random
                           JSON_parse TypeError in
    let answered parts :=
      let s := servedParts CLAUDE_KEY DEEPSEEK_KEY fetch Math_random
                           JSON_parse TypeError parts w in
      (Json 200 (snd (fst s)), snd s) in
    let failed property image :=
      (Failure 500 "Failed to analyze image"
               (message (TypeError (Some image) property)), w) in
    splitDataUrl TypeError (JStr (header ++ ","%char :: payload)) w
    = (Returns (JStr payload, mediaType), w)
    /\ splitDataUrl TypeError
         (JStr (header ++ ","%char :: payload ++ ","%char :: rest)) w
       = (Returns (JStr payload, mediaType), w)
    /\ splitDataUrl TypeError (JStr payload) w
       = (Returns (JStr payload, lit "image/jpeg"), w)
    /\ (mediaType = lit "image/jpeg" \/ lettersType mediaType)
    /\ (forall image : jstring, exists base64Data mt,
           splitDataUrl TypeError (JStr image) w
           = (Returns (JStr base64Data, mt), w)
           /\ (mt = lit "image/jpeg" \/ lettersType mt))
    /\ (forall image : json,
           handler (Some image) w
           = if truthy (Some image) then
               match image with
               | JStr s => answered (dataUrlParts s)
               | JArr items =>
                   if existsb isComma items then failed (lit "split") image
                   else answered (image, lit "image/jpeg")
               | _ => failed (lit "includes") image
               end
             else (Failure 400 "No image provided"
                           "Please upload an image to analyze", w)).
Proof.
  intros CK DK fetch rnd parse tyErr h d rest w Hh Hd mediaType handler
         answered failed.
  assert (Hm : mediaType = lit "image/jpeg" \/ lettersType mediaType).
  { unfold mediaType. destruct (matchMime h) eqn:E; [right|now left].
    now apply (matchMime_shape h). }
  split; [|split; [|split; [|split; [|split]]]].
  - unfold splitDataUrl. change (lit ",") with [","%char].
    rewrite includes_unit_at, split_before by exact Hh.
    rewrite split_whole by exact Hd. reflexivity.
  - unfold splitDataUrl. change (lit ",") with [","%char].
    rewrite includes_unit_at, split_before by exact Hh.
    rewrite split_before by exact Hd. reflexivity.
  - unfold splitDataUrl. change (lit ",") with [","%char].
    rewrite includes_unit_without by exact Hd. reflexivity.
  - exact Hm.
  - intro image. rewrite splitDataUrl_run. unfold dataUrlParts.
    destruct (includes image ","); [|eexists; eexists; split;
                                      [reflexivity | now left]].
    eexists; eexists; split; [reflexivity|].
    destruct (matchMime (hd [] (split ","%char image))) as [m|] eqn:E;
      [right; exact (matchMime_shape _ _ E) | left; reflexivity].
  - intro image. subst handler answered failed. cbv beta.
    destruct (truthy (Some image)) eqn:Ht;
      [|now apply analyze_rejects].
    pose proof (splitDataUrl_cases tyErr image w) as Hc.
    destruct image;
      try (now apply analyze_fails);
      try (now apply analyze_parts).
    destruct (existsb isComma _);
      [now apply analyze_fails | now apply analyze_parts].
Qed.

Lemma data_url_is_cut_at_commas_witness :
  splitDataUrl Examples.engineTypeError
               (JStr "data:image/png;base64,AAAA,BBBB") world0
  = (Returns (JStr "AAAA", lit "image/png"), world0)
  /\ splitDataUrl Examples.engineTypeError
                  (JStr "data:image/svg+xml;base64,AAAA") world0
     = (Returns (JStr "AAAA", lit "image/jpeg"), world0)
  /\ analyze Examples.key Examples.key (Examples.unreachable "down")
             (Examples.draws (3 # 4) (1 # 4)) JSONText.parse
             Examples.engineTypeError (Some (JBool true)) world0
     = (Failure 500 "Failed to analyze image"
                "Cannot read or call property includes", world0)
  /\ analyze Examples.key Examples.key (Examples.unreachable "down")
             (Examples.draws (3 # 4) (1 # 4)) JSONText.parse
             Examples.engineTypeError
             (Some (JArr [JStr "a"; JStr ","])) world0
     = (Failure 500 "Failed to analyze image"
                "Cannot read or call property split", world0).
Proof.
  pose proof (data_url_is_cut_at_commas Examples.key Examples.key
                (Examples.unreachable "down")
                (Examples.draws (3 # 4) (1 # 4)) JSONText.parse
                Examples.engineTypeError) as H.
  split; [|split; [|split]].
  - exact (proj1 (proj2 (H (lit "data:image/png;base64") (lit "AAAA")
                           (lit "BBBB") world0 eq_refl eq_refl))).
  - exact (proj1 (H (lit "data:image/svg+xml;base64") (lit "AAAA")
                    [] world0 eq_refl eq_refl)).
  - exact (proj2 (proj2 (proj2 (proj2 (proj2
             (H [] [] [] world0 eq_refl eq_refl)))))
             (JBool true)).
  - exact (proj2 (proj2 (proj2 (proj2 (proj2
             (H [] [] [] world0 eq_refl eq_refl)))))
             (JArr [JStr "a"; JStr ","])).
Defined.

(** *** The keyword scan *)

Lemma startsWith_tail p q s :
  startsWith (p ++ q) s = true -> includes s q = true.
Proof.
  unfold startsWith. revert s. induction p as [|a p IH]; intros s H.
  - destruct s; cbn [includes]; unfold startsWith; simpl in *;
      now rewrite H.
  - destruct s as [|b s]; [discriminate|]. simpl in H.
    apply andb_true_iff in H as [_ H]. cbn [includes].
    rewrite (IH s H). apply orb_true_r.
Qed.

Lemma includes_tail s p q :
  includes s (p ++ q) = true -> includes s q = true.
Proof.
  induction s as [|x s IH]; cbn [includes]; intro H.
  - rewrite orb_false_r in H. now apply (startsWith_tail p q []) in H.
  - apply orb_true_iff in H as [H|H].
    + now apply (startsWith_tail p q (x :: s)) in H.
    + rewrite (IH H). apply orb_true_r.
Qed.

Lemma generated_covers_ai_generated s :
  negb (includes s "ai-generated") && negb (includes s "generated")
  = negb (includes s "generated").
Proof.
  destruct (includes s "generated") eqn:G; [apply andb_false_r|].
  destruct (includes s "ai-generated") eqn:A; [|reflexivity].
  change (lit "ai-generated") with (lit "ai-" ++ lit "generated") in A.
  apply includes_tail in A. congruence.
Qed.

(** X3.  In both keyword scans the test for ["ai-generated"] decides
    nothing: every text that contains it contains ["generated"].
    DeepSeek's verdict is "no [artificial], no [generated]", Claude's is
    the same verdict and "no [fake]"; so whenever Claude's extractor calls
    a reply original, DeepSeek's does too. *)
Theorem keyword_scans_compared :
  forall t w,
    exists oc od,
      claudeFallback t w = allocated w oc
      /\ deepSeekFallback t w = allocated w od
      /\ isOriginal od
         = negb (includes (toLowerCase t) "artificial")
           && negb (includes (toLowerCase t) "generated")
      /\ isOriginal oc
         = isOriginal od && negb (includes (toLowerCase t) "fake")
      /\ (isOriginal oc = true -> isOriginal od = true).
Proof.
  intros t w. exists (claudeHeuristic t), (deepSeekHeuristic t).
  split; [apply claudeFallback_run|].
  split; [apply deepSeekFallback_run|].
  cbn [isOriginal claudeHeuristic deepSeekHeuristic].
  set (l := toLowerCase t).
  assert (Hd : negb (includes l "ai-generated")
               && negb (includes l "artificial")
               && negb (includes l "generated")
               = negb (includes l "artificial")
                 && negb (includes l "generated")).
  { rewrite <- (generated_covers_ai_generated l).
    destruct (includes l "ai-generated"), (includes l "artificial"),
      (includes l "generated"); reflexivity. }
  split; [exact Hd|]. split; [reflexivity|].
  intro H. now apply andb_true_iff in H as [H _].
Qed.

Lemma includes_inside a t b p :
  includes t p = true -> includes (a ++ t ++ b) p = true.
Proof.
  intro H. apply SpanFacts.includes_app_r. now apply SpanFacts.includes_app_l.
Qed.

Lemma clean_inside a t b p :
  negb (includes (toLowerCase (a ++ t ++ b)) p) = true ->
  negb (includes (toLowerCase t) p) = true.
Proof.
  unfold toLowerCase. rewrite !map_app, !negb_true_iff.
  intro H. destruct (includes (map lowerChar t) p) eqn:E; [|reflexivity].
  now rewrite (includes_inside _ _ _ _ E) in H.
Qed.

(** X4.  More text never clears a reply.  If the heuristic verdict on a
    text is "original", so is the verdict on every part of it: a reply
    flagged by a keyword stays flagged whatever is written before or after
    it. *)
Theorem flagged_text_stays_flagged :
  forall before t after w,
    (forall oc,
        resultOf (claudeFallback (before ++ t ++ after) w) = Some oc ->
        isOriginal oc = true ->
        exists o, resultOf (claudeFallback t w) = Some o
                  /\ isOriginal o = true)
    /\ (forall od,
           resultOf (deepSeekFallback (before ++ t ++ after) w) = Some od ->
           isOriginal od = true ->
           exists o, resultOf (deepSeekFallback t w) = Some o
                     /\ isOriginal o = true).
Proof.
  intros a t b w. split; intros o Ho H.
  - rewrite claudeFallback_run, resultOf_allocated in Ho.
    injection Ho as <-.
    exists (claudeHeuristic t).
    split; [now rewrite claudeFallback_run, resultOf_allocated|].
    cbn [isOriginal claudeHeuristic] in *.
    apply andb_true_iff in H as [H H4]. apply andb_true_iff in H as [H H3].
    apply andb_true_iff in H as [H1 H2].
    now rewrite (clean_inside _ _ _ _ H1), (clean_inside _ _ _ _ H2),
      (clean_inside _ _ _ _ H3), (clean_inside _ _ _ _ H4).
  - rewrite deepSeekFallback_run, resultOf_allocated in Ho.
    injection Ho as <-.
    exists (deepSeekHeuristic t).
    split; [now rewrite deepSeekFallback_run, resultOf_allocated|].
    cbn [isOriginal deepSeekHeuristic] in *.
    apply andb_true_iff in H as [H H3]. apply andb_true_iff in H as [H1 H2].
    now rewrite (clean_inside _ _ _ _ H1), (clean_inside _ _ _ _ H2),
      (clean_inside _ _ _ _ H3).
Qed.

Lemma flagged_text_stays_flagged_witness :
  exists o,
    resultOf (claudeFallback (lit "clearly a real photo") world0) = Some o
    /\ isOriginal o = true.
Proof.
  destruct (flagged_text_stays_flagged
              (lit "This is ") (lit "clearly a real photo")
              (lit ", nothing odd.") world0) as [H _].
  exact (H _ eq_refl eq_refl).
Defined.

(** *** Replies without text *)

Lemma settle_empty JSON_parse method heuristic e :
  JSON_parse [] = Throws e ->
  settle JSON_parse method heuristic [] = (Heuristic, heuristic []).
Proof.
  intro H. unfold settle. change (extractJsonText []) with (@nil ascii).
  now rewrite H.
Qed.

Lemma resultOf_finished w req path o :
  resultOf (finished w req path o) = Some o.
Proof. rewrite finished_returns. apply deref_finished. Qed.

(** X6.  A reply that carries no text is not an error.  When the body of
    a DeepSeek answer has no [choices], or the body of a Claude answer has
    an empty [content] array, the text is the empty string; with
    [JSON.parse] rejecting the empty string the analyser answers from the
    heuristic tier: original, confidence 70, the default lines.  A Claude
    body without [content] is different: reading it throws, and the
    answer is the mock fallback with that error as its reason. *)
Theorem reply_without_text :
  forall CLAUDE_KEY DEEPSEEK_KEY fetch Math_random JSON_parse TypeError
         base64Data mediaType w e,
    JSON_parse [] = Throws e ->
    (forall response fields,
        fetch (claudeRequest CLAUDE_KEY base64Data mediaType)
        = Returns response ->
        ok response = true ->
        body_json response = Returns (JObj fields) ->
        (assoc "content" fields = Some (JArr []) ->
         resultOf (analyzeWithClaude CLAUDE_KEY fetch Math_random JSON_parse
                                     TypeError base64Data mediaType w)
         = Some (mkResult true (JSMath.ofZ 70) claudeDefaults
                          "claude-api-fallback" None))
        /\ (assoc "content" fields = None ->
            resultOf (analyzeWithClaude CLAUDE_KEY fetch Math_random
                        JSON_parse TypeError base64Data mediaType w)
            = Some (drawnMock Math_random w "mock-fallback"
                              (Some (message (TypeError None "find"))))))
    /\ (forall response fields,
           fetch (deepSeekRequest DEEPSEEK_KEY base64Data mediaType)
           = Returns response ->
           ok response = true ->
           body_json response = Returns (JObj fields) ->
           assoc "choices" fields = None ->
           resultOf (analyzeWithDeepSeek DEEPSEEK_KEY fetch Math_random
                       JSON_parse TypeError base64Data mediaType w)
           = Some (mkResult true (JSMath.ofZ 70) deepSeekDefaults
                            "deepseek-api-fallback" None)).
Proof.
  intros CK DK fetch rnd parse tyErr b m w e He. split.
  - intros response fields Hf Hok Hb. split; intro Hc.
    + rewrite analyzeWithClaude_run, resultOf_finished.
      unfold providerText. rewrite Hf, Hok, Hb.
      assert (Ht : evalIn (claudeText tyErr (JObj fields)) = Returns [])
        by (unfold evalIn, claudeText, bind, getProp, ret; simpl;
            now rewrite Hc).
      rewrite Ht. unfold outcomeOf. now rewrite (settle_empty _ _ _ e He).
    + rewrite analyzeWithClaude_run, resultOf_finished.
      unfold providerText. rewrite Hf, Hok, Hb.
      assert (Ht : evalIn (claudeText tyErr (JObj fields))
                   = Throws (tyErr None "find"))
        by (unfold evalIn, claudeText, bind, getProp, ret; simpl;
            now rewrite Hc).
      now rewrite Ht.
  - intros response fields Hf Hok Hb Hc.
    rewrite analyzeWithDeepSeek_run, resultOf_finished.
    unfold providerText. rewrite Hf, Hok, Hb.
    assert (Ht : evalIn (deepSeekText tyErr (JObj fields)) = Returns [])
      by (unfold evalIn, deepSeekText, bind, getProp, ret; simpl;
          now rewrite Hc).
    rewrite Ht. unfold outcomeOf. now rewrite (settle_empty _ _ _ e He).
Qed.

Lemma reply_without_text_witness :
  deepSeekOn (replying (JObj [])) (draws (1 # 4) (3 # 4))
  = Some (mkResult true (JSMath.ofZ 70) deepSeekDefaults
                   "deepseek-api-fallback" None).
Proof.
  destruct (reply_without_text key key (replying (JObj []))
              (draws (1 # 4) (3 # 4)) JSONText.parse engineTypeError
              (JStr "AAAA") (lit "image/png") world0 JSONText.syntaxError
              eq_refl) as [_ H].
  exact (H _ [] eq_refl eq_refl eq_refl eq_refl).
Defined.

(** *** Tags and draws *)

Lemma settle_tag JSON_parse method heuristic t :
  let r := settle JSON_parse method heuristic t in
  (fst r = Strict /\ analysisMethod (snd r) = method
   /\ fallbackReason (snd r) = None)
  \/ (fst r = Heuristic /\ snd r = heuristic t).
Proof.
  unfold settle. destruct (JSON_parse (extractJsonText t)) as [parsed|e];
    [|now right].
  destruct (accepted method parsed) as [o|] eqn:E; [|now right].
  left. apply accepted_fields in E as (n & _ & Hm & Hr). now repeat split.
Qed.

Lemma drawn_finished w req path o :
  drawn (snd (finished w req path o))
  = match path with
    | MockFallback => S (S (drawn w))
    | _ => drawn w
    end.
Proof. now destruct path. Qed.

(** X7.  Each analyser uses three tags and no other.  Once the reply
    text has been obtained the tag is the provider's own or its
    [-fallback] form, no reason is attached and [Math.random] is not
    called; a parse failure never leads to the mock.  When obtaining the
    text fails the tag is ["mock-fallback"] and exactly two numbers are
    drawn.  Neither analyser ever answers with the tag ["mock"]. *)
Theorem analyser_tags :
  forall CLAUDE_KEY DEEPSEEK_KEY fetch Math_random JSON_parse TypeError
         base64Data mediaType w,
    (exists o w',
        analyzeWithClaude CLAUDE_KEY fetch Math_random JSON_parse TypeError
                          base64Data mediaType w
        = (Returns (length (heap w)), w')
        /\ deref (length (heap w)) w' = Some o
        /\ analysisMethod o <> lit "mock"
        /\ match providerText "Claude" (claudeText TypeError)
                 (fetch (claudeRequest CLAUDE_KEY base64Data mediaType)) with
           | Returns t =>
               (analysisMethod o = lit "claude-api"
                \/ analysisMethod o = lit "claude-api-fallback")
               /\ fallbackReason o = None
               /\ drawn w' = drawn w
           | Throws e =>
               analysisMethod o = lit "mock-fallback"
               /\ drawn w' = S (S (drawn w))
           end)
    /\ (exists o w',
           analyzeWithDeepSeek DEEPSEEK_KEY fetch Math_random JSON_parse
                               TypeError base64Data mediaType w
           = (Returns (length (heap w)), w')
           /\ deref (length (heap w)) w' = Some o
           /\ analysisMethod o <> lit "mock"
           /\ match providerText "DeepSeek" (deepSeekText TypeError)
                    (fetch (deepSeekRequest DEEPSEEK_KEY base64Data
                                            mediaType)) with
              | Returns t =>
                  (analysisMethod o = lit "deepseek-api"
                   \/ analysisMethod o = lit "deepseek-api-fallback")
                  /\ fallbackReason o = None
                  /\ drawn w' = drawn w
              | Throws e =>
                  analysisMethod o = lit "mock-fallback"
                  /\ drawn w' = S (S (drawn w))
              end).
Proof.
  intros CK DK fetch rnd parse tyErr b m w. split.
  - rewrite analyzeWithClaude_run.
    set (req := claudeRequest _ _ _).
    set (reply := providerText _ _ _).
    exists (snd (outcomeOf rnd parse w req "claude-api" claudeHeuristic reply)).
    eexists. split; [apply finished_returns|].
    split; [apply deref_finished|].
    rewrite drawn_finished. unfold outcomeOf.
    destruct reply as [t|e]; cbn [fst snd].
    + destruct (settle_tag parse "claude-api" claudeHeuristic t)
        as [(Hp & Hm & Hr)|(Hp & Ho)]; rewrite Hp.
      * rewrite Hm. split; [discriminate|]. now repeat split; auto.
      * rewrite Ho. split; [discriminate|]. now repeat split; auto.
    + split; [discriminate|]. now split.
  - rewrite analyzeWithDeepSeek_run.
    set (req := deepSeekRequest _ _ _).
    set (reply := providerText _ _ _).
    exists (snd (outcomeOf rnd parse w req "deepseek-api" deepSeekHeuristic
                           reply)).
    eexists. split; [apply finished_returns|].
    split; [apply deref_finished|].
    rewrite drawn_finished. unfold outcomeOf.
    destruct reply as [t|e]; cbn [fst snd].
    + destruct (settle_tag parse "deepseek-api" deepSeekHeuristic t)
        as [(Hp & Hm & Hr)|(Hp & Ho)]; rewrite Hp.
      * rewrite Hm. split; [discriminate|]. now repeat split; auto.
      * rewrite Ho. split; [discriminate|]. now repeat split; auto.
    + split; [discriminate|]. now split.
Qed.

(** *** What the strict path returns *)

Lemma Qfloor_between (q : Q) (z : Z) :
  (inject_Z z <= q)%Q -> (q < inject_Z (z + 1))%Q -> Qfloor q = z.
Proof.
  intros Hlo Hhi.
  assert (H1 : (z <= Qfloor q)%Z).
  { rewrite <- (Qfloor_Z z). now apply Qfloor_resp_le. }
  assert (H2 : (Qfloor q < z + 1)%Z).
  { rewrite Zlt_Qlt. eapply Qle_lt_trans; [apply Qfloor_le | exact Hhi]. }
  lia.
Qed.

Lemma round_integer (z : Z) : JSMath.round (JSMath.ofZ z) = JSMath.ofZ z.
Proof.
  unfold JSMath.round, JSMath.ofZ. f_equal. f_equal.
  apply Qfloor_between.
  - rewrite <- (Qplus_0_r (inject_Z z)) at 1.
    apply Qplus_le_r. discriminate.
  - rewrite inject_Z_plus. apply Qplus_lt_r. reflexivity.
Qed.

Lemma clamp_integer (z : Z) :
  clamp (JSMath.ofZ z) = JSMath.ofZ (Z.min 100 (Z.max 0 z)).
Proof.
  unfold clamp. now rewrite round_integer, max_ofZ, min_ofZ.
Qed.

(** X8.  The strict path trusts the reply.  For a reply whose object has
    a boolean [isOriginal], an integer [confidence] and an array
    [observations], the result carries that verdict and that array as
    they are, whatever the array holds and whatever else the object or
    the text says; the confidence is the integer brought into 0..100, so
    an integer percentage is returned unchanged. *)
Theorem strict_reply_passes_through :
  forall JSON_parse TypeError method t w fields b z observations,
    JSON_parse (extractJsonText t) = Returns (JObj fields) ->
    assoc "isOriginal" fields = Some (JBool b) ->
    assoc "confidence" fields = Some (JNum (JSMath.ofZ z)) ->
    assoc "observations" fields = Some (JArr observations) ->
    parseStrict JSON_parse TypeError method t w
    = allocated w (mkResult b (JSMath.ofZ (Z.min 100 (Z.max 0 z)))
                            observations method None)
    /\ ((0 <= z <= 100)%Z ->
        parseStrict JSON_parse TypeError method t w
        = allocated w (mkResult b (JSMath.ofZ z) observations method None)).
Proof.
  intros parse tyErr method t w fields b z obs Hp Hb Hc Ho.
  pose proof (parseStrict_run parse tyErr method t w) as H.
  rewrite Hp in H. unfold accepted in H. rewrite Hb, Hc, Ho in H.
  rewrite clamp_integer in H. split; [exact H|].
  intro Hz. rewrite H. do 3 f_equal. lia.
Qed.

Lemma strict_reply_passes_through_witness :
  parseStrict JSONText.parse engineTypeError "claude-api"
    (quoted "{'note':'fake','observations':[1,null],'confidence':42,'isOriginal':true}")
    world0
  = allocated world0
      (mkResult true (JSMath.ofZ 42) [JNum (JSMath.ofZ 1); JNull]
                "claude-api" None).
Proof.
  refine (proj2 (strict_reply_passes_through JSONText.parse engineTypeError
                   "claude-api" _ world0
                   [(lit "note", JStr "fake");
                    (lit "observations", JArr [JNum (JSMath.ofZ 1); JNull]);
                    (lit "confidence", JNum (JSMath.ofZ 42));
                    (lit "isOriginal", JBool true)]
                   true 42%Z [JNum (JSMath.ofZ 1); JNull]
                   _ eq_refl eq_refl eq_refl) _).
  - vm_compute. reflexivity.
  - lia.
Defined.

Lemma clamp_infinities :
  clamp PosInf = JSMath.ofZ 100 /\ clamp NegInf = JSMath.ofZ 0.
Proof. split; reflexivity. Qed.

Lemma round_half_up (z : Z) :
  JSMath.round (Fin (inject_Z z + (1 # 2))) = JSMath.ofZ (z + 1).
Proof.
  unfold JSMath.round, JSMath.ofZ. f_equal. f_equal.
  rewrite <- (Qfloor_Z (z + 1)). apply Qfloor_comp.
  rewrite inject_Z_plus. ring.
Qed.

(** X9.  Bringing the confidence into range keeps its order: of two
    replies, the one with the larger confidence never ends up with the
    smaller result.  Infinite values end at the bounds, a half is rounded
    up, and a value that went through once is left alone by a second
    pass. *)
Theorem clamp_keeps_order :
  forall n1 n2,
    JSMath.leb n1 n2 = true ->
    JSMath.leb (clamp n1) (clamp n2) = true
    /\ clamp (clamp n1) = clamp n1
    /\ clamp PosInf = JSMath.ofZ 100
    /\ clamp NegInf = JSMath.ofZ 0
    /\ (forall z, clamp (Fin (inject_Z z + (1 # 2)))
                  = JSMath.ofZ (Z.min 100 (Z.max 0 (z + 1)))).
Proof.
  intros n1 n2 H.
  assert (Hidem : clamp (clamp n1) = clamp n1).
  { destruct (clamp_range n1) as (z & -> & Hz).
    rewrite clamp_integer. f_equal. lia. }
  split; [|split; [exact Hidem|split; [reflexivity|split; [reflexivity|]]]].
  - destruct (clamp_range n1) as (z1 & E1 & Hz1).
    destruct (clamp_range n2) as (z2 & E2 & Hz2).
    destruct n1 as [q1| | ], n2 as [q2| | ]; try discriminate H.
    + rewrite !clamp_finite, leb_ofZ. apply Z.leb_le.
      simpl in H. apply Qle_bool_iff in H.
      assert (Hf : (Qfloor (q1 + (1 # 2)) <= Qfloor (q2 + (1 # 2)))%Z)
        by now apply Qfloor_resp_le, Qplus_le_l.
      lia.
    + rewrite E1. change (clamp PosInf) with (JSMath.ofZ 100).
      rewrite leb_ofZ. apply Z.leb_le. lia.
    + reflexivity.
    + rewrite E2. change (clamp NegInf) with (JSMath.ofZ 0).
      rewrite leb_ofZ. apply Z.leb_le. lia.
    + reflexivity.
    + reflexivity.
  - intro z. unfold clamp. now rewrite round_half_up, max_ofZ, min_ofZ.
Qed.

Lemma clamp_keeps_order_witness :
  JSMath.leb (clamp (Fin (5 # 2))) (clamp (Fin (149 # 1))) = true.
Proof.
  exact (proj1 (clamp_keeps_order (Fin (5 # 2)) (Fin (149 # 1)) eq_refl)).
Defined.

(** *** Requests *)

Lemma served_heap CLAUDE_KEY DEEPSEEK_KEY fetch Math_random JSON_parse
      TypeError image w :
  let s := served CLAUDE_KEY DEEPSEEK_KEY fetch Math_random JSON_parse
                  TypeError image w in
  heap (snd s) = heap w ++ [snd (fst s)].
Proof.
  unfold served, servedParts. destruct (dataUrlParts image) as [b m].
  destruct (selectProvider CLAUDE_KEY DEEPSEEK_KEY); cbn [fst snd];
    solve [apply finished_shape | reflexivity].
Qed.

(** X10.  Without a configured key the answer does not depend on the
    image: two uploads served from the same state get the same reply and
    leave the same state, whatever they contain. *)
Theorem mock_ignores_the_image :
  forall CLAUDE_KEY DEEPSEEK_KEY fetch Math_random JSON_parse TypeError,
    configured CLAUDE_KEY = false ->
    configured DEEPSEEK_KEY = false ->
    forall c1 rest1 c2 rest2 w,
      analyze CLAUDE_KEY DEEPSEEK_KEY fetch Math_random JSON_parse TypeError
              (Some (JStr (c1 :: rest1))) w
      = analyze CLAUDE_KEY DEEPSEEK_KEY fetch Math_random JSON_parse TypeError
                (Some (JStr (c2 :: rest2))) w.
Proof.
  intros CK DK fetch rnd parse tyErr HC HD c1 r1 c2 r2 w.
  rewrite !analyze_run. unfold served, servedParts, selectProvider. rewrite HC, HD.
  destruct (dataUrlParts (c1 :: r1)), (dataUrlParts (c2 :: r2)).
  reflexivity.
Qed.

Lemma mock_ignores_the_image_witness :
  analyze None None (unreachable "offline") (draws (3 # 4) (1 # 4))
          JSONText.parse engineTypeError
          (Some (JStr "data:image/png;base64,AAAA")) world0
  = analyze None None (unreachable "offline") (draws (3 # 4) (1 # 4))
            JSONText.parse engineTypeError (Some (JStr "x")) world0.
Proof.
  exact (mock_ignores_the_image None None (unreachable "offline")
           (draws (3 # 4) (1 # 4)) JSONText.parse engineTypeError
           eq_refl eq_refl "d"%char (lit "ata:image/png;base64,AAAA")
           "x"%char [] world0).
Defined.

(** X11.  Requests do not touch each other's results.  Two requests
    served one after the other leave exactly two new objects in the
    store, in order, and the object of the first reply is still what was
    replied once the second has been served. *)
Theorem later_request_leaves_reply_alone :
  forall CLAUDE_KEY DEEPSEEK_KEY fetch Math_random JSON_parse TypeError
         c1 rest1 c2 rest2 w,
    exists o1 o2 w1 w2,
      analyze CLAUDE_KEY DEEPSEEK_KEY fetch Math_random JSON_parse TypeError
              (Some (JStr (c1 :: rest1))) w
      = (Json 200 o1, w1)
      /\ analyze CLAUDE_KEY DEEPSEEK_KEY fetch Math_random JSON_parse
                 TypeError (Some (JStr (c2 :: rest2))) w1
         = (Json 200 o2, w2)
      /\ heap w2 = heap w ++ [o1; o2]
      /\ deref (length (heap w)) w2 = Some o1
      /\ deref (S (length (heap w))) w2 = Some o2.
Proof.
  intros CK DK fetch rnd parse tyErr c1 r1 c2 r2 w.
  set (s1 := served CK DK fetch rnd parse tyErr (c1 :: r1) w).
  set (s2 := served CK DK fetch rnd parse tyErr (c2 :: r2) (snd s1)).
  exists (snd (fst s1)), (snd (fst s2)), (snd s1), (snd s2).
  assert (H1 : heap (snd s1) = heap w ++ [snd (fst s1)])
    by apply served_heap.
  assert (H2 : heap (snd s2) = heap (snd s1) ++ [snd (fst s2)])
    by apply served_heap.
  assert (H : heap (snd s2) = heap w ++ [snd (fst s1); snd (fst s2)])
    by (rewrite H2, H1, <- app_assoc; reflexivity).
  split; [apply analyze_run|]. split; [apply analyze_run|].
  split; [exact H|]. unfold deref. rewrite H. split.
  - rewrite nth_error_app2 by lia. now rewrite Nat.sub_diag.
  - rewrite nth_error_app2 by lia.
    now replace (S (length (heap w)) - length (heap w)) with 1 by lia.
Qed.

End Coverage.

(** ** The health check and the startup banner *)

Section Server.

Variable CLAUDE_KEY DEEPSEEK_KEY : option jstring.






End Server.

Section ServerFacts.

Import JSString.




End ServerFacts.

(** ** Which part of a provider's answer is read *)

Section ReplySelection.

Variable TypeError : value -> jstring -> JsError.

Lemma jstring_eqb_eq a b : jstring_eqb a b = true <-> a = b.
Proof.
  revert b. induction a as [|x a IH]; intros [|y b]; simpl;
    try (split; [discriminate | discriminate]); [tauto|].
  rewrite andb_true_iff, Ascii.eqb_eq, IH.
  split; [intros [-> ->]; reflexivity | intro H; injection H; auto].
Qed.

(** A content block that [find] passes over: not [null], and without the
    type ["text"]. *)
Definition passedOver (c : json) : Prop :=
  match c with
  | JNull => False
  | JObj fields => assoc "type" fields <> Some (JStr "text")
  | _ => True
  end.

Lemma findText_first others block rest :
  Forall passedOver others ->
  (exists fields, block = JObj fields
                  /\ assoc "type" fields = Some (JStr "text")) ->
  evalIn (findText TypeError (others ++ block :: rest))
  = Returns (Some block).
Proof.
  intros Ho (fields & -> & Ht).
  induction Ho as [|c others Hc Ho IH]; cbn [app findText].
  - unfold evalIn, bind, getProp, ret. simpl. rewrite Ht. reflexivity.
  - revert IH. unfold evalIn, bind. intro IH.
    destruct c as [ |b|n|s|items|fs]; simpl in *; try exact IH;
      try contradiction.
    destruct (assoc "type" fs) as [[ |b|n|s|items|fs']|]; simpl;
      try exact IH.
    destruct (jstring_eqb s "text") eqn:E; [|exact IH].
    apply jstring_eqb_eq in E. subst s. now contradiction Hc.
Qed.

(** X13.  Of a Claude answer only the first block of type ["text"] is
    read: blocks of other types before it are passed over and everything
    after it is ignored.  Of a DeepSeek answer only the first choice is
    read.  In both cases the reply text is the string found there. *)
Theorem only_first_text_is_read :
  forall others fields t rest dataFields,
    Forall passedOver others ->
    assoc "type" fields = Some (JStr "text") ->
    assoc "text" fields = Some (JStr t) ->
    (assoc "content" dataFields
     = Some (JArr (others ++ JObj fields :: rest)) ->
     evalIn (claudeText TypeError (JObj dataFields)) = Returns t)
    /\ (forall choice message said,
           assoc "choices" dataFields
           = Some (JArr (JObj choice :: rest)) ->
           assoc "message" choice = Some (JObj message) ->
           assoc "content" message = Some (JStr said) ->
           evalIn (deepSeekText TypeError (JObj dataFields))
           = Returns said).
Proof.
  intros others fields t rest dfields Ho Hty Htx. split.
  - intro Hc.
    pose proof (findText_first others (JObj fields) rest Ho
                  (ex_intro _ fields (conj eq_refl Hty))) as Hf.
    pose proof (pure_findText TypeError (others ++ JObj fields :: rest))
      as Hp.
    unfold evalIn, claudeText, bind, getProp, ret. simpl. rewrite Hc.
    rewrite (Hp world0), Hf. simpl. rewrite Htx. now destruct t.
  - intros choice message said Hc Hm Hcontent.
    unfold evalIn, deepSeekText, bind, getProp, ret. simpl. rewrite Hc.
    simpl. rewrite Hm. simpl. rewrite Hcontent. now destruct said.
Qed.

End ReplySelection.

Lemma only_first_text_is_read_witness :
  evalIn (claudeText Examples.engineTypeError
            (JObj [(lit "content",
                    JArr [JObj [(lit "type", JStr "thinking")];
                          JStr "stray";
                          JObj [(lit "type", JStr "text");
                                (lit "text", JStr "first")];
                          JObj [(lit "type", JStr "text");
                                (lit "text", JStr "second")]])]))
  = Returns (lit "first").
Proof.
  refine (proj1 (only_first_text_is_read Examples.engineTypeError
                   [JObj [(lit "type", JStr "thinking")]; JStr "stray"]
                   [(lit "type", JStr "text"); (lit "text", JStr "first")]
                   (lit "first")
                   [JObj [(lit "type", JStr "text");
                          (lit "text", JStr "second")]]
                   [(lit "content",
                     JArr [JObj [(lit "type", JStr "thinking")];
                           JStr "stray";
                           JObj [(lit "type", JStr "text");
                                 (lit "text", JStr "first")];
                           JObj [(lit "type", JStr "text");
                                 (lit "text", JStr "second")]])]
                   _ eq_refl eq_refl) eq_refl).
  repeat constructor. discriminate.
Defined.
